(** * The Docker explorer tree provider (src/explorer/dockerExplorer.ts)

    A shallow embedding of [DockerExplorerProvider]: the provider object, the
    nodes it allocates, and the collaborators it talks to (container daemon,
    Docker Hub client, Azure account and SDK clients, the [request-promise]
    HTTP client, the editor's configuration and timers).

    - Nodes are JavaScript objects: they live in a [heap] and are handed
      around as references, so that "a freshly constructed node" and "an
      existing node is left alone" are statements about the heap.
    - An [async] method is a computation in the monad [M]: it threads the
      [World] and ends [Resolved], [Rejected] or, for the one unbounded loop
      of the file ([listAll]), [OutOfFuel].
    - The collaborators are not part of the file: the results of their calls
      are read from a [Backend] record of settled promises, one field per
      call site.  For the HTTP client the record holds what the registry
      answers; how [request-promise] treats callbacks, failures and a
      missing bearer is part of [request].
    - One expansion is run to its end; interleavings of several expansions at
      their [await] points are not modelled. *)

From stdpp Require Import base list strings sorting.
From Stdlib Require Import ZArith Lia.

(** ** JavaScript values the code looks at *)

Inductive Error : Type :=
| TypeError (what : string)      (* property access on undefined or null *)
| SyntaxError                    (* JSON.parse on malformed text *)
| Failure (reason : string).     (* the value a collaborator rejected with *)

(** A settled promise of a collaborator. *)
Inductive Promise (A : Type) : Type :=
| Fulfilled (a : A)
| Failed (e : Error).
Arguments Fulfilled {A} a.
Arguments Failed {A} e.

(** [!!s] on a string that may be undefined or null: only a non-empty string
    is truthy. *)
Definition truthy (s : option string) : bool :=
  match s with
  | Some s => negb (String.eqb s "")
  | None => false
  end.

(** What a template literal or [+] prints for a string that may be
    undefined. *)
Definition show (s : option string) : string := default "undefined" s.

(** [s.substring(1)] *)
Definition substring1 (s : string) : string :=
  match s with
  | EmptyString => EmptyString
  | String _ rest => rest
  end.

(** The one-character strings [s[0]], [s[1]], ... of a string. *)
Fixpoint chars (s : string) : list string :=
  match s with
  | EmptyString => []
  | String c rest => String c EmptyString :: chars rest
  end.

(** ** Descriptors of the collaborators *)

(** Docker.ImageDesc and Docker.ContainerDesc, the fields the file reads.
    [RepoTags = None] is a missing (null) property. *)
Record ImageDesc : Type := {
  Id : string;
  RepoTags : option (list string)
}.

Record ContainerDesc : Type := {
  Image : string;
  Names : list string;
  State : string;
  Status : string
}.

Record AzureSession : Type := {
  environment : string;
  userId : string;
  credentials : string
}.

(** SubscriptionModels.Subscription: every property is optional. *)
Record Subscription : Type := {
  displayName : option string;
  subscriptionId : option string;
  tenantId : option string
}.

Record SubscriptionItem : Type := {
  sub_label : string;
  description : string;
  session : AzureSession;
  subscription : Subscription
}.

(** interface PartialList<T> extends Array<T> { nextLink?: string } *)
Record PartialList (T : Type) : Type := {
  items : list T;
  nextLink : option string
}.
Arguments items {T} _.
Arguments nextLink {T} _.

Record HubUser : Type := { username : option string }.
Record HubRepo : Type := { namespace : option string; name : option string }.
Record HubTag : Type := { tag_name : option string }.
Record Registry : Type := { loginServer : string }.

(** The result handed to the callback of [credentials.context.acquireToken]. *)
Record TokenResult : Type := {
  accessToken : option string;
  refreshToken : option string
}.

(** A JSON document as the registry protocol sends it: an object whose
    members are strings or arrays of strings.  A member that is not there
    reads as undefined. *)
Inductive JsonField : Type :=
| JString (s : string)
| JStrings (l : list string).

Definition Json : Type := list (string * JsonField).

Fixpoint member (k : string) (doc : Json) : option JsonField :=
  match doc with
  | [] => None
  | (k', v) :: rest => if String.eqb k k' then Some v else member k rest
  end.

(** The body of an HTTP reply: its text, of which the code takes the
    length, and what [JSON.parse] makes of that text ([None]: it throws). *)
Record Body : Type := {
  text : string;
  parsed : option Json
}.

Inductive Method : Type := GET | POST.

Record HttpRequest : Type := {
  method : Method;
  url : string;
  form : list (string * option JsonField);
  bearer : option (option JsonField)     (* the [auth] option, when given *)
}.

(** ** Nodes *)

Inductive TreeItemCollapsibleState : Type := None_ | Collapsed | Expanded.

(** [iconPath]: null, or the pair of themed icons.  Paths are written from
    the extension's root, where [path.join(__filename, '..', '..', '..')]
    points. *)
Inductive IconPath : Type :=
| IconNull
| Icons (light dark : string).

Definition mono_moby_small : IconPath :=
  Icons "images/light/mono_moby_small.png" "images/dark/mono_moby_small.png".
Definition moby_small : IconPath :=
  Icons "images/light/moby_small.png" "images/dark/moby_small.png".

(** [repository: any = {}]: the empty object, a Docker Hub repository, or
    (Azure) the registry's login server. *)
Inductive Repository : Type :=
| RepoEmpty
| RepoHub (r : HubRepo)
| RepoServer (server : string).

Record DockerNode : Type := {
  label : string;
  collapsibleState : TreeItemCollapsibleState;
  contextValue : string;
  command : option string;
  iconPath : IconPath;
  containerDesc : option ContainerDesc;
  imageDesc : option ImageDesc;
  repository : Repository;
  node_subscription : option SubscriptionItem;
  refreshTokenARC : option JsonField;
  accessTokenARC : option JsonField
}.

(** A reference to a node object. *)
Definition loc : Type := nat.

(** ** The provider and the world around it *)

Definition TimerId : Type := nat.

Record DockerExplorerProvider : Type := {
  _imagesNode : option loc;
  _containersNode : option loc;
  _registriesNode : option loc;
  _debounceTimer : option TimerId;
  _keytar : bool                      (* false: the module was not found *)
}.

Record World : Type := {
  heap : list DockerNode;             (* every node object, by reference *)
  this : DockerExplorerProvider;
  fired : list (option loc);          (* arguments of _onDidChangeTreeData.fire *)
  timers : list (TimerId * Z);        (* pending timeouts and their delay *)
  nextTimer : TimerId;
  keychain : option string;           (* keytar: vscode-docker / dockerhub *)
  loginToken : option string;         (* dockerHubAPI.setLoginToken *)
  requests : list HttpRequest;        (* exchanges sent, oldest first *)
  warnings : list string              (* vscode.window.showWarningMessage *)
}.

(** The collaborators: what each call of the file settles to. *)
Record Backend : Type := {
  explorerRefreshInterval : option Z;
  localeCompare : string → string → Z;
  getImageDescriptors : Promise (option (list ImageDesc));
  getContainerDescriptors : list string → Promise (option (list ContainerDesc));
  waitForLogin : Promise bool;
  sessions : list AzureSession;
  subscriptions_list : AzureSession → Promise (PartialList Subscription);
  subscriptions_listNext : AzureSession → string → Promise (PartialList Subscription);
  registries_list : AzureSession → option string → Promise (list Registry);
  context_acquireToken : AzureSession → Error + TokenResult;
  dockerHubLogin : Promise (option string);
  hub_loggedInUser : Promise (option HubUser);
  hub_repositories : option string → Promise (list HubRepo);
  hub_repository : option string → option string → Promise HubRepo;
  hub_tags : option string → option string → Promise (list HubTag);
  http : HttpRequest → Promise Body
}.

(** ** The monad of asynchronous methods *)

Inductive Outcome (A : Type) : Type :=
| Resolved (a : A)
| Rejected (e : Error)
| OutOfFuel.
Arguments Resolved {A} a.
Arguments Rejected {A} e.
Arguments OutOfFuel {A}.

Definition M (A : Type) : Type := World → Outcome A * World.

Definition ret {A} (a : A) : M A := λ w, (Resolved a, w).

Definition bind {A B} (m : M A) (k : A → M B) : M B :=
  λ w, match m w with
       | (Resolved a, w') => k a w'
       | (Rejected e, w') => (Rejected e, w')
       | (OutOfFuel, w') => (OutOfFuel, w')
       end.

Definition throw {A} (e : Error) : M A := λ w, (Rejected e, w).

(** [await p] on a settled promise. *)
Definition await {A} (p : Promise A) : M A :=
  match p with
  | Fulfilled a => ret a
  | Failed e => throw e
  end.

Definition get : M World := λ w, (Resolved w, w).
Definition modify (f : World → World) : M unit := λ w, (Resolved tt, f w).

Notation "x <- m ;; k" := (bind m (λ x, k))
  (at level 100, m at next level, right associativity).
Notation "m ;;; k" := (bind m (λ _, k))
  (at level 100, right associativity).

(** [for (const x of l) body(x)], collecting what each round produces. *)
Fixpoint mapM {A B} (f : A → M B) (l : list A) : M (list B) :=
  match l with
  | [] => ret []
  | x :: rest => y <- f x ;; ys <- mapM f rest ;; ret (y :: ys)
  end.

(** Field updates of the world. *)
Definition set_heap (h : list DockerNode) (w : World) : World :=
  {| heap := h; this := this w; fired := fired w; timers := timers w;
     nextTimer := nextTimer w; keychain := keychain w;
     loginToken := loginToken w; requests := requests w;
     warnings := warnings w |}.
Definition set_this (p : DockerExplorerProvider) (w : World) : World :=
  {| heap := heap w; this := p; fired := fired w; timers := timers w;
     nextTimer := nextTimer w; keychain := keychain w;
     loginToken := loginToken w; requests := requests w;
     warnings := warnings w |}.
Definition set_fired (f : list (option loc)) (w : World) : World :=
  {| heap := heap w; this := this w; fired := f; timers := timers w;
     nextTimer := nextTimer w; keychain := keychain w;
     loginToken := loginToken w; requests := requests w;
     warnings := warnings w |}.
Definition set_timers (t : list (TimerId * Z)) (n : TimerId) (w : World) : World :=
  {| heap := heap w; this := this w; fired := fired w; timers := t;
     nextTimer := n; keychain := keychain w;
     loginToken := loginToken w; requests := requests w;
     warnings := warnings w |}.
Definition set_keychain (k : option string) (w : World) : World :=
  {| heap := heap w; this := this w; fired := fired w; timers := timers w;
     nextTimer := nextTimer w; keychain := k;
     loginToken := loginToken w; requests := requests w;
     warnings := warnings w |}.
Definition set_loginToken (t : option string) (w : World) : World :=
  {| heap := heap w; this := this w; fired := fired w; timers := timers w;
     nextTimer := nextTimer w; keychain := keychain w;
     loginToken := t; requests := requests w;
     warnings := warnings w |}.
Definition set_requests (r : list HttpRequest) (w : World) : World :=
  {| heap := heap w; this := this w; fired := fired w; timers := timers w;
     nextTimer := nextTimer w; keychain := keychain w;
     loginToken := loginToken w; requests := r;
     warnings := warnings w |}.
Definition set_warnings (ws : list string) (w : World) : World :=
  {| heap := heap w; this := this w; fired := fired w; timers := timers w;
     nextTimer := nextTimer w; keychain := keychain w;
     loginToken := loginToken w; requests := requests w;
     warnings := ws |}.

(** Field updates of a node ([node.imageDesc = ...] and the like). *)
Definition with_containerDesc (c : ContainerDesc) (n : DockerNode) : DockerNode :=
  {| label := label n; collapsibleState := collapsibleState n;
     contextValue := contextValue n; command := command n;
     iconPath := iconPath n; containerDesc := Some c;
     imageDesc := imageDesc n; repository := repository n;
     node_subscription := node_subscription n;
     refreshTokenARC := refreshTokenARC n; accessTokenARC := accessTokenARC n |}.
Definition with_imageDesc (d : ImageDesc) (n : DockerNode) : DockerNode :=
  {| label := label n; collapsibleState := collapsibleState n;
     contextValue := contextValue n; command := command n;
     iconPath := iconPath n; containerDesc := containerDesc n;
     imageDesc := Some d; repository := repository n;
     node_subscription := node_subscription n;
     refreshTokenARC := refreshTokenARC n; accessTokenARC := accessTokenARC n |}.
Definition with_repository (r : Repository) (n : DockerNode) : DockerNode :=
  {| label := label n; collapsibleState := collapsibleState n;
     contextValue := contextValue n; command := command n;
     iconPath := iconPath n; containerDesc := containerDesc n;
     imageDesc := imageDesc n; repository := r;
     node_subscription := node_subscription n;
     refreshTokenARC := refreshTokenARC n; accessTokenARC := accessTokenARC n |}.
Definition with_subscription (s : option SubscriptionItem) (n : DockerNode) : DockerNode :=
  {| label := label n; collapsibleState := collapsibleState n;
     contextValue := contextValue n; command := command n;
     iconPath := iconPath n; containerDesc := containerDesc n;
     imageDesc := imageDesc n; repository := repository n;
     node_subscription := s;
     refreshTokenARC := refreshTokenARC n; accessTokenARC := accessTokenARC n |}.
Definition with_refreshTokenARC (t : option JsonField) (n : DockerNode) : DockerNode :=
  {| label := label n; collapsibleState := collapsibleState n;
     contextValue := contextValue n; command := command n;
     iconPath := iconPath n; containerDesc := containerDesc n;
     imageDesc := imageDesc n; repository := repository n;
     node_subscription := node_subscription n;
     refreshTokenARC := t; accessTokenARC := accessTokenARC n |}.
Definition with_accessTokenARC (t : option JsonField) (n : DockerNode) : DockerNode :=
  {| label := label n; collapsibleState := collapsibleState n;
     contextValue := contextValue n; command := command n;
     iconPath := iconPath n; containerDesc := containerDesc n;
     imageDesc := imageDesc n; repository := repository n;
     node_subscription := node_subscription n;
     refreshTokenARC := refreshTokenARC n; accessTokenARC := t |}.

(** [new DockerNode(label, collapsibleState, contextValue, command, iconPath)]:
    a new object at the next free reference.  An [iconPath] that is not
    passed takes the constructor's default, the grey icon pair. *)
Definition new_DockerNode (lbl : string) (cs : TreeItemCollapsibleState)
    (ctx : string) (cmd : option string) (icon : option IconPath) : M loc :=
  λ w, (Resolved (length (heap w)),
        set_heap (heap w ++
          [ {| label := lbl; collapsibleState := cs; contextValue := ctx;
               command := cmd; iconPath := default mono_moby_small icon;
               containerDesc := None; imageDesc := None;
               repository := RepoEmpty; node_subscription := None;
               refreshTokenARC := None; accessTokenARC := None |} ]) w).

(** An assignment to a field of the object at [l]. *)
Definition assign (l : loc) (f : DockerNode → DockerNode) : M unit :=
  modify (λ w, set_heap (alter f l (heap w)) w).

(** The provider's own fields. *)
Definition set_categoryNodes (i c r : option loc) (p : DockerExplorerProvider)
    : DockerExplorerProvider :=
  {| _imagesNode := i; _containersNode := c; _registriesNode := r;
     _debounceTimer := _debounceTimer p; _keytar := _keytar p |}.
Definition set_debounceTimer (t : option TimerId) (p : DockerExplorerProvider)
    : DockerExplorerProvider :=
  {| _imagesNode := _imagesNode p; _containersNode := _containersNode p;
     _registriesNode := _registriesNode p;
     _debounceTimer := t; _keytar := _keytar p |}.

(** The constructor: every field undefined, except [_keytar] when the module
    could be loaded. *)
Definition constructor (keytar_found : bool) : World :=
  {| heap := [];
     this := {| _imagesNode := None; _containersNode := None;
                _registriesNode := None; _debounceTimer := None;
                _keytar := keytar_found |};
     fired := []; timers := []; nextTimer := 0; keychain := None;
     loginToken := None; requests := []; warnings := [] |}.

(** ** The methods of the provider *)

Section Provider.

Context (B : Backend).

(** [this._onDidChangeTreeData.fire(node)] *)
Definition fire (node : option loc) : M unit :=
  modify (λ w, set_fired (fired w ++ [node]) w).

Definition refreshImages : M unit :=
  w <- get ;; fire (_imagesNode (this w)).

Definition refreshContainers : M unit :=
  w <- get ;; fire (_containersNode (this w)).

Definition refreshRegistries : M unit :=
  w <- get ;; fire (_registriesNode (this w)).

Definition refresh : M unit :=
  refreshImages ;;; refreshContainers ;;; refreshRegistries.

(** [clearTimeout(t)]: a timer that is undefined or no longer pending is
    ignored. *)
Definition clearTimeout (t : option TimerId) : M unit :=
  modify (λ w, match t with
               | Some id => set_timers (filter (λ p, p.1 ≠ id) (timers w))
                                       (nextTimer w) w
               | None => w
               end).

(** [setTimeout(callback, delay)]; the only callback of the file is
    [timeoutCallback] below. *)
Definition setTimeout (delay : Z) : M TimerId :=
  λ w, (Resolved (nextTimer w),
        set_timers (timers w ++ [(nextTimer w, delay)]) (S (nextTimer w)) w).

Definition timeoutCallback : M unit :=
  refreshImages ;;; refreshContainers.

Definition setAutoRefresh : M unit :=
  let interval := default 1000%Z (explorerRefreshInterval B) in
  if decide (interval > 0)%Z then
    w <- get ;;
    clearTimeout (_debounceTimer (this w)) ;;;
    id <- setTimeout interval ;;
    modify (λ w, set_this (set_debounceTimer (Some id) (this w)) w)
  else ret tt.

(** The event loop runs the callback of a pending timer, once. *)
Definition expire (id : TimerId) : M unit :=
  w <- get ;;
  if decide (id ∈ (timers w).*1) then
    modify (λ w, set_timers (filter (λ p, p.1 ≠ id) (timers w)) (nextTimer w) w) ;;;
    timeoutCallback
  else ret tt.

(** [listAll]: the loop of the [for] statement.  [page] is the source's
    [list], the current page, and [all] what was pushed so far; every round
    takes one unit of fuel. *)
Fixpoint listAll_loop {T} (fuel : nat) (listNext : string → Promise (PartialList T))
    (page : PartialList T) (all : list T) : M (list T) :=
  if negb (Nat.eqb (length (items page)) 0) || truthy (nextLink page) then
    match fuel with
    | O => λ w, (OutOfFuel, w)
    | S fuel =>
        let all := all ++ items page in
        next <- match nextLink page with
                | Some link =>
                    if truthy (Some link) then await (listNext link)
                    else ret {| items := []; nextLink := None |}
                | None => ret {| items := []; nextLink := None |}
                end ;;
        listAll_loop fuel listNext next all
    end
  else ret all.

Definition listAll {T} (fuel : nat) (listNext : string → Promise (PartialList T))
    (first : Promise (PartialList T)) : M (list T) :=
  page <- await first ;;
  listAll_loop fuel listNext page [].

(** The comparator handed to [Array.prototype.sort]: [a] may stay before [b]
    when it returns no positive number. *)
Definition byLabel (a b : SubscriptionItem) : Prop :=
  (localeCompare B (sub_label a) (sub_label b) ≤ 0)%Z.

#[global] Instance byLabel_dec a b : Decision (byLabel a b).
Proof. unfold byLabel. apply _. Defined.

(** [Array.prototype.sort(compare)]: for a consistent comparator the
    language fixes the result, the stable sorted arrangement; a merge sort
    computes it. *)
Definition sort (l : list SubscriptionItem) : list SubscriptionItem :=
  merge_sort byLabel l.

Definition subscriptionItem (s : AzureSession) (sub : Subscription) : SubscriptionItem :=
  {| sub_label := default "" (displayName sub);
     description := default "" (subscriptionId sub);
     session := s;
     subscription := sub |}.

Definition getSubscriptions (fuel : nat) : M (list SubscriptionItem) :=
  perSession <- mapM (λ s,
      subscriptions <- listAll fuel (subscriptions_listNext B s)
                                    (subscriptions_list B s) ;;
      ret (map (subscriptionItem s) subscriptions)) (sessions B) ;;
  ret (sort (concat perSession)).

Definition getTreeItem (element : DockerNode) : DockerNode := element.

(** *** getDockerNodes, branch by branch

    The local array [nodes] holds references; a branch returns what it pushed,
    in order. *)

(** [if (!element)]: the three category nodes. *)
Definition topLevel : M (list loc) :=
  i <- new_DockerNode "Images" Collapsed "imagesLabel" None (Some IconNull) ;;
  modify (λ w, set_this (set_categoryNodes (Some i) (_containersNode (this w))
                                           (_registriesNode (this w)) (this w)) w) ;;;
  c <- new_DockerNode "Containers" Collapsed "containersLabel" None (Some IconNull) ;;
  modify (λ w, set_this (set_categoryNodes (_imagesNode (this w)) (Some c)
                                           (_registriesNode (this w)) (this w)) w) ;;;
  r <- new_DockerNode "Registries" Collapsed "registriesLabel" None (Some IconNull) ;;
  modify (λ w, set_this (set_categoryNodes (_imagesNode (this w))
                                           (_containersNode (this w)) (Some r) (this w)) w) ;;;
  ret [i; c; r].

(** The body of the loop over [images]: the nodes of one descriptor. *)
Definition imageNodes (image : ImageDesc) : M (list loc) :=
  match RepoTags image with
  | None =>
      node <- new_DockerNode "<none>:<none>" None_ "image" None None ;;
      assign node (with_imageDesc image) ;;;
      ret [node]
  | Some tags =>
      mapM (λ tag,
        node <- new_DockerNode tag None_ "image" None None ;;
        assign node (with_imageDesc image) ;;;
        ret node) tags
  end.

Definition expandImages : M (list loc) :=
  images <- await (getImageDescriptors B) ;;
  match images with
  | None | Some [] => ret []
  | Some images =>
      perImage <- mapM imageNodes images ;;
      ret (concat perImage)
  end.

(** [['exited', 'dead'].includes(state)] *)
Definition stopped (state : string) : bool :=
  bool_decide (state ∈ ["exited"; "dead"]).

(** The body of the loop over [containers]. *)
Definition containerNode (container : ContainerDesc) : M loc :=
  let contextValue := if stopped (State container)
                      then "stoppedContainer" else "runningContainer" in
  let iconPath := if stopped (State container)
                  then mono_moby_small else moby_small in
  match Names container !! 0%nat with
  | None => throw (TypeError "Names[0].substring")
  | Some first =>
      let containerName := substring1 first in
      node <- new_DockerNode
                (Image container +:+ " (" +:+ containerName +:+ ") [" +:+
                 Status container +:+ "]")
                None_ contextValue None (Some iconPath) ;;
      assign node (with_containerDesc container) ;;;
      ret node
  end.

Definition statusFilter : list string :=
  ["created"; "restarting"; "running"; "paused"; "exited"; "dead"].

Definition expandContainers : M (list loc) :=
  containers <- await (getContainerDescriptors B statusFilter) ;;
  match containers with
  | None | Some [] => ret []
  | Some containers => mapM containerNode containers
  end.

Definition expandRegistries (fuel : nat) : M (list loc) :=
  hub <- new_DockerNode "Docker Hub" Collapsed "dockerHubRegistry" None (Some IconNull) ;;
  loggedIntoAzure <- await (waitForLogin B) ;;
  if (loggedIntoAzure : bool) then
    subs <- getSubscriptions fuel ;;
    subNodes <- mapM (λ sub,
      node <- new_DockerNode (sub_label sub) Collapsed "azureSubscription"
                             None (Some IconNull) ;;
      assign node (with_subscription (Some sub)) ;;;
      ret node) subs ;;
    ret (hub :: subNodes)
  else ret [hub].

(** [dockerHubAPI.setLoginToken] and keytar's two calls. *)
Definition setLoginToken (token : option string) : M unit :=
  modify (set_loginToken token).
Definition getPassword : M (option string) :=
  w <- get ;; ret (keychain w).
Definition setPassword (token : option string) : M unit :=
  modify (set_keychain token).

Definition hubRepositories : M (list loc) :=
  user <- await (hub_loggedInUser B) ;;
  match user with
  | None => throw (TypeError "user.username")
  | Some user =>
      myRepos <- await (hub_repositories B (username user)) ;;
      mapM (λ r,
        myRepo <- await (hub_repository B (namespace r) (name r)) ;;
        node <- new_DockerNode (show (namespace myRepo) +:+ "/" +:+ show (name myRepo))
                               Collapsed "dockerHubRegistryImage" None (Some IconNull) ;;
        assign node (with_repository (RepoHub myRepo)) ;;;
        ret node) myRepos
  end.

Definition expandDockerHub : M (list loc) :=
  w <- get ;;
  token <- (if _keytar (this w) then getPassword else ret None) ;;
  if negb (truthy token) then
    token <- await (dockerHubLogin B) ;;
    if truthy token then
      setLoginToken token ;;;
      (if _keytar (this w) then setPassword token else ret tt) ;;;
      hubRepositories
    else ret []
  else
    setLoginToken token ;;;
    hubRepositories.

(** [element.repository.namespace] and [.name]: undefined unless the payload
    is a Docker Hub repository. *)
Definition repo_namespace (r : Repository) : option string :=
  match r with RepoHub r => namespace r | _ => None end.
Definition repo_name (r : Repository) : option string :=
  match r with RepoHub r => name r | _ => None end.

(** [element.repository] in a string concatenation. *)
Definition repo_string (r : Repository) : string :=
  match r with RepoServer s => s | _ => "[object Object]" end.

Definition expandHubImage (element : DockerNode) : M (list loc) :=
  myTags <- await (hub_tags B (repo_namespace (repository element))
                              (repo_name (repository element))) ;;
  mapM (λ tag,
    new_DockerNode (show (repo_name (repository element)) +:+ ":" +:+ show (tag_name tag))
                   None_ "dockerHubRegistryImageTag" None (Some IconNull)) myTags.

Definition expandSubscription (element : DockerNode) : M (list loc) :=
  match node_subscription element with
  | None => throw (TypeError "element.subscription.session")
  | Some sub =>
      registries <- await (registries_list B (session sub)
                                           (subscriptionId (subscription sub))) ;;
      mapM (λ reg,
        node <- new_DockerNode (loginServer reg) Collapsed "azureRegistry"
                               None (Some IconNull) ;;
        assign node (with_subscription (node_subscription element)) ;;;
        ret node) registries
  end.

(** [acquireToken(session)]: the promise around the callback of
    [credentials.context.acquireToken]; an error rejects it. *)
Definition acquireToken (s : AzureSession) : M TokenResult :=
  match context_acquireToken B s with
  | inl err => throw err
  | inr result => ret {| accessToken := accessToken result;
                         refreshToken := refreshToken result |}
  end.

(** The error of the [request] client for an [auth] option that has neither
    a user nor a bearer. *)
Definition noAuth : Error := Failure "no auth mechanism defined".

(** A callback that the client runs from its own event handler: an exception
    it throws does not reach the expansion, which goes on with the variable
    of the callback as it was, [unassigned].  (No callback of the file
    throws after it has assigned or pushed.) *)
Definition settle {A} (callback : M A) (unassigned : A) : M A :=
  λ w, match callback w with
       | (Rejected _, w') => (Resolved unassigned, w')
       | other => other
       end.

(** [await request.post(url, options, callback)] and [request.get], with
    the behaviour of [request-promise]:
    - an [auth] option whose bearer is undefined is refused before anything
      is sent: the callback runs inside the call, with the error and no
      body; an exception it throws leaves the call, otherwise the promise
      rejects with the error;
    - a request that is sent and answered runs the callback on the body and
      resolves, whatever the callback does;
    - a request that is sent and fails runs the callback with the error and
      no body, and rejects with the error.
    The result is what the callback leaves in the variable it closes
    over. *)
Definition request {A} (r : HttpRequest)
    (callback : option Error → option Body → M A) (unassigned : A) : M A :=
  match bearer r with
  | Some None =>
      callback (Some noAuth) None ;;;
      throw noAuth
  | _ =>
      modify (λ w, set_requests (requests w ++ [r]) w) ;;;
      match http B r with
      | Fulfilled body => settle (callback None (Some body)) unassigned
      | Failed e =>
          settle (callback (Some e) None) unassigned ;;;
          throw e
      end
  end.

Definition JSON_parse (body : Body) : M Json :=
  match parsed body with
  | Some doc => ret doc
  | None => throw SyntaxError
  end.

(** [body.length], which throws on a body that is undefined, and
    [body.length > 0]. *)
Definition received (body : option Body) : M Body :=
  match body with
  | Some body => ret body
  | None => throw (TypeError "body.length")
  end.

Definition nonEmpty (body : Body) : bool :=
  Nat.ltb 0 (String.length (text body)).

(** The callbacks of the two token calls: they assign the token when the
    body is not empty; their [return []] leaves the callback only, and the
    variable undefined. *)
Definition tokenCallback (field : string) (err : option Error)
    (body : option Body) : M (option JsonField) :=
  body <- received body ;;
  if nonEmpty body then
    doc <- JSON_parse body ;;
    ret (member field doc)
  else ret None.

(** [v.length] and [v[i]] in a counting loop over a member of the reply. *)
Definition entries (v : option JsonField) : M (list string) :=
  match v with
  | None => throw (TypeError "length")
  | Some (JStrings l) => ret l
  | Some (JString s) => ret (chars s)
  end.

Definition showWarningMessage (msg : string) : M unit :=
  modify (λ w, set_warnings (warnings w ++ [msg]) w).

Definition field (s : option string) : option JsonField := JString <$> s.

Definition expandRegistry (element : DockerNode) : M (option (list loc)) :=
  match node_subscription element with
  | None => throw (TypeError "element.subscription.session")
  | Some sub =>
      tokens <- acquireToken (session sub) ;;
      if truthy (accessToken tokens) && truthy (refreshToken tokens) then
        let tenantId := tenantId (subscription sub) in
        refreshTokenARC <- request
          {| method := POST;
             url := "https://" +:+ label element +:+ "/oauth2/exchange";
             form := [("grant_type", Some (JString "access_token_refresh_token"));
                      ("service", Some (JString (label element)));
                      ("tenant", field tenantId);
                      ("refresh_token", field (refreshToken tokens));
                      ("access_token", field (accessToken tokens))];
             bearer := None |}
          (tokenCallback "refresh_token") None ;;
        accessTokenARC <- request
          {| method := POST;
             url := "https://" +:+ label element +:+ "/oauth2/token";
             form := [("grant_type", Some (JString "refresh_token"));
                      ("service", Some (JString (label element)));
                      ("scope", Some (JString "registry:catalog:*"));
                      ("refresh_token", refreshTokenARC)];
             bearer := None |}
          (tokenCallback "access_token") None ;;
        nodes <- request
          {| method := GET;
             url := "https://" +:+ label element +:+ "/v2/_catalog";
             form := [];
             bearer := Some accessTokenARC |}
          (λ err body,
             body <- received body ;;
             if nonEmpty body then
               doc <- JSON_parse body ;;
               repositories <- entries (member "repositories" doc) ;;
               mapM (λ repo,
                 node <- new_DockerNode repo Collapsed "azureRepository"
                                        None (Some IconNull) ;;
                 assign node (with_repository (RepoServer (label element))) ;;;
                 assign node (with_subscription (node_subscription element)) ;;;
                 assign node (with_accessTokenARC accessTokenARC) ;;;
                 assign node (with_refreshTokenARC refreshTokenARC) ;;;
                 ret node) repositories
             else
               showWarningMessage "no repos" ;;; ret []) [] ;;
        ret (Some nodes)
      else
        (* no later test of the tag matches: the function ends without a
           value *)
        ret None
  end.

Definition expandRepository (element : DockerNode) : M (option (list loc)) :=
  match node_subscription element with
  | None => throw (TypeError "element.subscription.session")
  | Some sub =>
      tokens <- acquireToken (session sub) ;;
      if truthy (accessToken tokens) && truthy (refreshToken tokens) then
        let tenantId := tenantId (subscription sub) in
        let server := repo_string (repository element) in
        let element_refreshTokenARC := refreshTokenARC element in
        refreshTokenARC <- request
          {| method := POST;
             url := "https://" +:+ server +:+ "/oauth2/exchange";
             form := [("grant_type", Some (JString "access_token_refresh_token"));
                      ("service", Some (JString server));
                      ("tenant", field tenantId);
                      ("refresh_token", field (refreshToken tokens));
                      ("access_token", field (accessToken tokens))];
             bearer := None |}
          (tokenCallback "refresh_token") None ;;
        accessTokenARC <- request
          {| method := POST;
             url := "https://" +:+ server +:+ "/oauth2/token";
             form := [("grant_type", Some (JString "refresh_token"));
                      ("service", Some (JString server));
                      ("scope", Some (JString ("repository:" +:+ label element +:+ ":pull")));
                      ("refresh_token", refreshTokenARC)];
             bearer := None |}
          (tokenCallback "access_token") None ;;
        nodes <- request
          {| method := GET;
             url := "https://" +:+ server +:+ "/v2/" +:+ label element +:+ "/tags/list";
             form := [];
             bearer := Some accessTokenARC |}
          (λ err body,
             match err with
             | Some _ => ret []          (* [if (err) { return []; }] *)
             | None =>
                 body <- received body ;;
                 if nonEmpty body then
                   doc <- JSON_parse body ;;
                   tags <- entries (member "tags" doc) ;;
                   mapM (λ tag,
                     node <- new_DockerNode (label element +:+ ":" +:+ tag) None_
                                            "azureRepositoryTag" None (Some IconNull) ;;
                     assign node (with_repository (repository element)) ;;;
                     assign node (with_subscription (node_subscription element)) ;;;
                     assign node (with_accessTokenARC accessTokenARC) ;;;
                     assign node (with_refreshTokenARC element_refreshTokenARC) ;;;
                     ret node) tags
                 else ret []
             end) [] ;;
        ret (Some nodes)
      else ret None
  end.

(** [getDockerNodes(element)]: [None] as a result is the [undefined] of a
    function that ends without [return]. *)
Definition getDockerNodes (fuel : nat) (element : option DockerNode)
    : M (option (list loc)) :=
  match element with
  | None => nodes <- topLevel ;; ret (Some nodes)
  | Some element =>
      let tag := contextValue element in
      if String.eqb tag "imagesLabel" then
        nodes <- expandImages ;; ret (Some nodes)
      else if String.eqb tag "containersLabel" then
        nodes <- expandContainers ;; ret (Some nodes)
      else if String.eqb tag "registriesLabel" then
        nodes <- expandRegistries fuel ;; ret (Some nodes)
      else if String.eqb tag "dockerHubRegistry" then
        nodes <- expandDockerHub ;; ret (Some nodes)
      else if String.eqb tag "dockerHubRegistryImage" then
        nodes <- expandHubImage element ;; ret (Some nodes)
      else if String.eqb tag "azureSubscription" then
        nodes <- expandSubscription element ;; ret (Some nodes)
      else if String.eqb tag "azureRegistry" then
        expandRegistry element
      else if String.eqb tag "azureRepository" then
        expandRepository element
      else ret None
  end.

Definition getChildren (fuel : nat) (element : option DockerNode)
    : M (option (list loc)) :=
  getDockerNodes fuel element.

End Provider.

(** ** Reference points of the statements *)

(** A category node as the top-level branch constructs it. *)
Definition categoryNode (lbl tag : string) : DockerNode :=
  {| label := lbl; collapsibleState := Collapsed; contextValue := tag;
     command := None; iconPath := IconNull;
     containerDesc := None; imageDesc := None;
     repository := RepoEmpty; node_subscription := None;
     refreshTokenARC := None; accessTokenARC := None |}.

(** The pages that following the continuation links from [first] reaches:
    a page whose link is missing or empty ends the sequence. *)
Inductive chain {T} (listNext : string → Promise (PartialList T))
    : PartialList T → list (PartialList T) → Prop :=
| chain_last page :
    truthy (nextLink page) = false →
    chain listNext page [page]
| chain_next page link next rest :
    nextLink page = Some link →
    truthy (Some link) = true →
    listNext link = Fulfilled next →
    chain listNext next rest →
    chain listNext page (page :: rest).

(** What the host and the event loop may call on the provider, each call
    with the state of the collaborators at that moment. *)
Inductive Call : Type :=
| CallRefresh
| CallRefreshImages
| CallRefreshContainers
| CallRefreshRegistries
| CallSetAutoRefresh
| CallExpire (id : TimerId)
| CallGetChildren (fuel : nat) (element : option DockerNode).

Definition call (B : Backend) (c : Call) (w : World) : World :=
  match c with
  | CallRefresh => (refresh w).2
  | CallRefreshImages => (refreshImages w).2
  | CallRefreshContainers => (refreshContainers w).2
  | CallRefreshRegistries => (refreshRegistries w).2
  | CallSetAutoRefresh => (setAutoRefresh B w).2
  | CallExpire id => (expire id w).2
  | CallGetChildren fuel element => (getChildren B fuel element w).2
  end.

Definition topLevelCall (c : Call) : bool :=
  match c with
  | CallGetChildren _ None => true
  | _ => false
  end.

Definition run (calls : list (Backend * Call)) (w : World) : World :=
  foldl (λ w bc, call bc.1 bc.2 w) w calls.

(** The three category references of the provider. *)
Definition categoryNodes (w : World) : option loc * option loc * option loc :=
  (_imagesNode (this w), _containersNode (this w), _registriesNode (this w)).

(** A computation that leaves the three references as they are, however it
    ends. *)
Definition keeps {A} (m : M A) : Prop :=
  ∀ w, categoryNodes (m w).2 = categoryNodes w.

(** The object the containers branch leaves for a descriptor whose first
    name is [first]. *)
Definition containerObject (container : ContainerDesc) (first : string) : DockerNode :=
  {| label := Image container +:+ " (" +:+ substring1 first +:+ ") [" +:+
              Status container +:+ "]";
     collapsibleState := None_;
     contextValue := if stopped (State container)
                     then "stoppedContainer" else "runningContainer";
     command := None;
     iconPath := if stopped (State container) then mono_moby_small else moby_small;
     containerDesc := Some container; imageDesc := None;
     repository := RepoEmpty; node_subscription := None;
     refreshTokenARC := None; accessTokenARC := None |}.

(** The objects the images branch leaves for a descriptor. *)
Definition imageObject (image : ImageDesc) (lbl : string) : DockerNode :=
  {| label := lbl; collapsibleState := None_; contextValue := "image";
     command := None; iconPath := mono_moby_small;
     containerDesc := None; imageDesc := Some image;
     repository := RepoEmpty; node_subscription := None;
     refreshTokenARC := None; accessTokenARC := None |}.

Definition imageObjects (image : ImageDesc) : list DockerNode :=
  match RepoTags image with
  | None => [imageObject image "<none>:<none>"]
  | Some tags => map (imageObject image) tags
  end.

(** The object the registries branch leaves for a subscription item. *)
Definition subscriptionObject (sub : SubscriptionItem) : DockerNode :=
  {| label := sub_label sub; collapsibleState := Collapsed;
     contextValue := "azureSubscription";
     command := None; iconPath := IconNull;
     containerDesc := None; imageDesc := None;
     repository := RepoEmpty; node_subscription := Some sub;
     refreshTokenARC := None; accessTokenARC := None |}.

(** Consecutive blocks of references, from [start] on: one block per element
    of [xs], as long as the list [size] gives for it. *)
Fixpoint chunks {A} (size : A → nat) (start : nat) (xs : list A) : list (list loc) :=
  match xs with
  | [] => []
  | x :: rest => seq start (size x) :: chunks size (start + size x) rest
  end.

(** What the callback of a token call leaves in its variable when the call
    is answered: the member of the reply, or undefined when the body is
    empty, is no JSON, or has no such member. *)
Definition leftBy (member_ : string) (body : Body) : option JsonField :=
  if nonEmpty body then
    match parsed body with
    | Some doc => member member_ doc
    | None => None
    end
  else None.

(** The three exchanges of a registry or repository expansion: for the
    registry [server], given the tokens of the session and what the first
    two calls left. *)
Definition exchangeRequest (server : string) (tenant : option string)
    (tokens : TokenResult) : HttpRequest :=
  {| method := POST;
     url := "https://" +:+ server +:+ "/oauth2/exchange";
     form := [("grant_type", Some (JString "access_token_refresh_token"));
              ("service", Some (JString server));
              ("tenant", field tenant);
              ("refresh_token", field (refreshToken tokens));
              ("access_token", field (accessToken tokens))];
     bearer := None |}.

Definition tokenRequest (server scope : string) (refreshTokenARC : option JsonField)
    : HttpRequest :=
  {| method := POST;
     url := "https://" +:+ server +:+ "/oauth2/token";
     form := [("grant_type", Some (JString "refresh_token"));
              ("service", Some (JString server));
              ("scope", Some (JString scope));
              ("refresh_token", refreshTokenARC)];
     bearer := None |}.

Definition listingRequest (address : string) (accessTokenARC : option JsonField)
    : HttpRequest :=
  {| method := GET; url := address; form := [];
     bearer := Some accessTokenARC |}.

(** ** Concrete collaborators

    States of the collaborators at which the statements below are
    evaluated. *)

(** Comparison of strings by code unit, the collation of the root locale on
    plain ASCII labels. *)
Definition byCodeUnit (a b : string) : Z :=
  match String.compare a b with
  | Lt => (-1)%Z
  | Eq => 0%Z
  | Gt => 1%Z
  end.

(** Nothing is reachable: the daemon has no data, nobody is logged in and
    every remote call fails. *)
Definition offline : Backend :=
  {| explorerRefreshInterval := None;
     localeCompare := byCodeUnit;
     getImageDescriptors := Fulfilled None;
     getContainerDescriptors := λ _, Fulfilled None;
     waitForLogin := Fulfilled false;
     sessions := [];
     subscriptions_list := λ _, Failed (Failure "offline");
     subscriptions_listNext := λ _ _, Failed (Failure "offline");
     registries_list := λ _ _, Failed (Failure "offline");
     context_acquireToken := λ _, inl (Failure "offline");
     dockerHubLogin := Fulfilled None;
     hub_loggedInUser := Failed (Failure "offline");
     hub_repositories := λ _, Failed (Failure "offline");
     hub_repository := λ _ _, Failed (Failure "offline");
     hub_tags := λ _ _, Failed (Failure "offline");
     http := λ _, Failed (Failure "offline") |}.

(** The configured refresh interval. *)
Definition with_interval (i : option Z) (B : Backend) : Backend :=
  {| explorerRefreshInterval := i; localeCompare := localeCompare B;
     getImageDescriptors := getImageDescriptors B;
     getContainerDescriptors := getContainerDescriptors B;
     waitForLogin := waitForLogin B; sessions := sessions B;
     subscriptions_list := subscriptions_list B;
     subscriptions_listNext := subscriptions_listNext B;
     registries_list := registries_list B;
     context_acquireToken := context_acquireToken B;
     dockerHubLogin := dockerHubLogin B;
     hub_loggedInUser := hub_loggedInUser B;
     hub_repositories := hub_repositories B;
     hub_repository := hub_repository B; hub_tags := hub_tags B;
     http := http B |}.

(** What the daemon answers to the listing of images. *)
Definition with_images (p : Promise (option (list ImageDesc))) (B : Backend) : Backend :=
  {| explorerRefreshInterval := explorerRefreshInterval B;
     localeCompare := localeCompare B; getImageDescriptors := p;
     getContainerDescriptors := getContainerDescriptors B;
     waitForLogin := waitForLogin B; sessions := sessions B;
     subscriptions_list := subscriptions_list B;
     subscriptions_listNext := subscriptions_listNext B;
     registries_list := registries_list B;
     context_acquireToken := context_acquireToken B;
     dockerHubLogin := dockerHubLogin B;
     hub_loggedInUser := hub_loggedInUser B;
     hub_repositories := hub_repositories B;
     hub_repository := hub_repository B; hub_tags := hub_tags B;
     http := http B |}.

(** What the daemon answers to the listing of containers. *)
Definition with_containers (p : list string → Promise (option (list ContainerDesc))) (B : Backend) : Backend :=
  {| explorerRefreshInterval := explorerRefreshInterval B;
     localeCompare := localeCompare B;
     getImageDescriptors := getImageDescriptors B;
     getContainerDescriptors := p; waitForLogin := waitForLogin B;
     sessions := sessions B; subscriptions_list := subscriptions_list B;
     subscriptions_listNext := subscriptions_listNext B;
     registries_list := registries_list B;
     context_acquireToken := context_acquireToken B;
     dockerHubLogin := dockerHubLogin B;
     hub_loggedInUser := hub_loggedInUser B;
     hub_repositories := hub_repositories B;
     hub_repository := hub_repository B; hub_tags := hub_tags B;
     http := http B |}.

(** The Azure account: its sessions and the pages of their subscriptions. *)
Definition with_azure (login : Promise bool) (ss : list AzureSession) (first : AzureSession → Promise (PartialList Subscription)) (next : AzureSession → string → Promise (PartialList Subscription)) (B : Backend) : Backend :=
  {| explorerRefreshInterval := explorerRefreshInterval B;
     localeCompare := localeCompare B;
     getImageDescriptors := getImageDescriptors B;
     getContainerDescriptors := getContainerDescriptors B;
     waitForLogin := login; sessions := ss; subscriptions_list := first;
     subscriptions_listNext := next; registries_list := registries_list B;
     context_acquireToken := context_acquireToken B;
     dockerHubLogin := dockerHubLogin B;
     hub_loggedInUser := hub_loggedInUser B;
     hub_repositories := hub_repositories B;
     hub_repository := hub_repository B; hub_tags := hub_tags B;
     http := http B |}.

(** What the credentials of a session answer to acquireToken. *)
Definition with_acquireToken (f : AzureSession → Error + TokenResult) (B : Backend) : Backend :=
  {| explorerRefreshInterval := explorerRefreshInterval B;
     localeCompare := localeCompare B;
     getImageDescriptors := getImageDescriptors B;
     getContainerDescriptors := getContainerDescriptors B;
     waitForLogin := waitForLogin B; sessions := sessions B;
     subscriptions_list := subscriptions_list B;
     subscriptions_listNext := subscriptions_listNext B;
     registries_list := registries_list B; context_acquireToken := f;
     dockerHubLogin := dockerHubLogin B;
     hub_loggedInUser := hub_loggedInUser B;
     hub_repositories := hub_repositories B;
     hub_repository := hub_repository B; hub_tags := hub_tags B;
     http := http B |}.

(** What the registry answers to each exchange. *)
Definition with_http (f : HttpRequest → Promise Body) (B : Backend) : Backend :=
  {| explorerRefreshInterval := explorerRefreshInterval B;
     localeCompare := localeCompare B;
     getImageDescriptors := getImageDescriptors B;
     getContainerDescriptors := getContainerDescriptors B;
     waitForLogin := waitForLogin B; sessions := sessions B;
     subscriptions_list := subscriptions_list B;
     subscriptions_listNext := subscriptions_listNext B;
     registries_list := registries_list B;
     context_acquireToken := context_acquireToken B;
     dockerHubLogin := dockerHubLogin B;
     hub_loggedInUser := hub_loggedInUser B;
     hub_repositories := hub_repositories B;
     hub_repository := hub_repository B; hub_tags := hub_tags B;
     http := f |}.


(** An Azure session with one subscription, a registry of that subscription
    and a repository of that registry, as the expansions above them build
    the nodes. *)
Definition devSession : AzureSession :=
  {| environment := "AzureCloud"; userId := "dev@example.org";
     credentials := "dev" |}.

Definition devSubscription : SubscriptionItem :=
  subscriptionItem devSession
    {| displayName := Some "Development"; subscriptionId := Some "sub-1";
       tenantId := Some "tenant-1" |}.

Definition registryNode : DockerNode :=
  with_subscription (Some devSubscription)
    (categoryNode "dev.azurecr.io" "azureRegistry").

Definition repositoryNode : DockerNode :=
  with_repository (RepoServer "dev.azurecr.io")
    (with_subscription (Some devSubscription)
       (categoryNode "app" "azureRepository")).

Definition devTokens : AzureSession → Error + TokenResult :=
  λ _, inr {| accessToken := Some "aad-access"; refreshToken := Some "aad-refresh" |}.

(** The text of a reply. *)
Definition quoted (s : string) : string :=
  let dq := String (Ascii.ascii_of_nat 34) EmptyString in dq +:+ s +:+ dq.

Definition reply (member value : string) (doc : Json) : Promise Body :=
  Fulfilled {| text := "{" +:+ quoted member +:+ ":" +:+ value +:+ "}";
               parsed := Some doc |}.

(** A registry that answers the first call with a refresh token and the
    second call with an empty body; it answers nothing else. *)
Definition secondBodyEmpty (r : HttpRequest) : Promise Body :=
  if String.eqb (url r) "https://dev.azurecr.io/oauth2/exchange" then
    reply "refresh_token" (quoted "acr-refresh")
          [("refresh_token", JString "acr-refresh")]
  else if String.eqb (url r) "https://dev.azurecr.io/oauth2/token" then
    Fulfilled {| text := ""; parsed := None |}
  else Failed (Failure "unauthorized").

(** What the interactive Docker Hub login yields. *)
Definition with_login (p : Promise (option string)) (B : Backend) : Backend :=
  {| explorerRefreshInterval := explorerRefreshInterval B;
     localeCompare := localeCompare B;
     getImageDescriptors := getImageDescriptors B;
     getContainerDescriptors := getContainerDescriptors B;
     waitForLogin := waitForLogin B; sessions := sessions B;
     subscriptions_list := subscriptions_list B;
     subscriptions_listNext := subscriptions_listNext B;
     registries_list := registries_list B;
     context_acquireToken := context_acquireToken B; dockerHubLogin := p;
     hub_loggedInUser := hub_loggedInUser B;
     hub_repositories := hub_repositories B;
     hub_repository := hub_repository B; hub_tags := hub_tags B;
     http := http B |}.

(** What the Docker Hub client answers. *)
Definition with_hub (user : Promise (option HubUser)) (repos : option string → Promise (list HubRepo)) (repo : option string → option string → Promise HubRepo) (tags : option string → option string → Promise (list HubTag)) (B : Backend) : Backend :=
  {| explorerRefreshInterval := explorerRefreshInterval B;
     localeCompare := localeCompare B;
     getImageDescriptors := getImageDescriptors B;
     getContainerDescriptors := getContainerDescriptors B;
     waitForLogin := waitForLogin B; sessions := sessions B;
     subscriptions_list := subscriptions_list B;
     subscriptions_listNext := subscriptions_listNext B;
     registries_list := registries_list B;
     context_acquireToken := context_acquireToken B;
     dockerHubLogin := dockerHubLogin B; hub_loggedInUser := user;
     hub_repositories := repos; hub_repository := repo; hub_tags := tags;
     http := http B |}.

(** What the management client lists as registries. *)
Definition with_registries (f : AzureSession → option string → Promise (list Registry)) (B : Backend) : Backend :=
  {| explorerRefreshInterval := explorerRefreshInterval B;
     localeCompare := localeCompare B;
     getImageDescriptors := getImageDescriptors B;
     getContainerDescriptors := getContainerDescriptors B;
     waitForLogin := waitForLogin B; sessions := sessions B;
     subscriptions_list := subscriptions_list B;
     subscriptions_listNext := subscriptions_listNext B;
     registries_list := f; context_acquireToken := context_acquireToken B;
     dockerHubLogin := dockerHubLogin B;
     hub_loggedInUser := hub_loggedInUser B;
     hub_repositories := hub_repositories B;
     hub_repository := hub_repository B; hub_tags := hub_tags B;
     http := http B |}.

(** A registry that answers the three calls of the exchange: a refresh
    token, an access token, and the listings when the bearer is that access
    token. *)
Definition registryReplies (r : HttpRequest) : Promise Body :=
  if String.eqb (url r) "https://dev.azurecr.io/oauth2/exchange" then
    reply "refresh_token" (quoted "acr-refresh")
          [("refresh_token", JString "acr-refresh")]
  else if String.eqb (url r) "https://dev.azurecr.io/oauth2/token" then
    reply "access_token" (quoted "acr-access")
          [("access_token", JString "acr-access")]
  else
    match bearer r with
    | Some (Some (JString "acr-access")) =>
        if String.eqb (url r) "https://dev.azurecr.io/v2/_catalog" then
          reply "repositories" ("[" +:+ quoted "app" +:+ "," +:+ quoted "db" +:+ "]")
                [("repositories", JStrings ["app"; "db"])]
        else if String.eqb (url r) "https://dev.azurecr.io/v2/app/tags/list" then
          reply "tags" ("[" +:+ quoted "latest" +:+ "]")
                [("tags", JStrings ["latest"])]
        else Failed (Failure "not found")
    | _ => Failed (Failure "unauthorized")
    end.

(** ** Frames and allocation, as predicates on computations *)

(** A computation that leaves a part of the world as it is, however it
    ends. *)
Definition leaves {A X} (part : World → X) (m : M A) : Prop :=
  ∀ w, part (m w).2 = part w.

(** Parts of the world: the signals of the provider (events, timers and the
    two fields that are no category reference), the traffic with a registry,
    and the Docker Hub credentials. *)
Definition signals (w : World)
    : list (option loc) * list (TimerId * Z) * TimerId * option TimerId * bool :=
  (fired w, timers w, nextTimer w, _debounceTimer (this w), _keytar (this w)).

Definition registryTraffic (w : World) : list HttpRequest * list string :=
  (requests w, warnings w).

Definition hubCredentials (w : World) : option string * option string :=
  (keychain w, loginToken w).

(** The body of a counting loop of the file: it fails before it touches the
    heap, or it allocates one object, of which [P] holds, and returns its
    reference. *)
Definition allocates1 (P : DockerNode → Prop) (m : M loc) : Prop :=
  ∀ w, (heap (m w).2 = heap w ∧ ∀ l, (m w).1 ≠ Resolved l)
       ∨ (∃ n, P n ∧ heap (m w).2 = heap w ++ [n]
               ∧ (m w).1 = Resolved (length (heap w))).

(** A computation that only adds objects to the heap, however it ends -
    objects of which [P] holds - and whose result, when it has one, is the
    references of the objects it added, in the order of their allocation. *)
Definition allocates (P : DockerNode → Prop) (m : M (list loc)) : Prop :=
  ∀ w, ∃ new, Forall P new ∧ heap (m w).2 = heap w ++ new
              ∧ ∀ locs, (m w).1 = Resolved locs →
                        locs = seq (length (heap w)) (length new).

(** The same after the references [before], allocated just before. *)
Definition allocatesAfter (P : DockerNode → Prop) (before : list loc)
    (m : M (list loc)) : Prop :=
  ∀ w, ∃ new, Forall P new ∧ heap (m w).2 = heap w ++ new
              ∧ ∀ locs, (m w).1 = Resolved locs →
                        locs = before ++ seq (length (heap w)) (length new).

(** The same for [getDockerNodes], which may end without a value: then it
    has allocated nothing. *)
Definition allocatesResult (P : DockerNode → Prop)
    (m : M (option (list loc))) : Prop :=
  ∀ w, ∃ new, Forall P new ∧ heap (m w).2 = heap w ++ new
              ∧ ∀ result, (m w).1 = Resolved result →
                  match result with
                  | Some locs => locs = seq (length (heap w)) (length new)
                  | None => new = []
                  end.

(** The payload a node needs for the branch its tag selects: the descriptor
    of an image or a container node, the subscription item of the Azure
    nodes, the registry's name of a repository node, the repository of a
    Docker Hub repository node. *)
Definition wellTagged (n : DockerNode) : bool :=
  let tag := contextValue n in
  if String.eqb tag "image" then bool_decide (is_Some (imageDesc n))
  else if String.eqb tag "stoppedContainer" || String.eqb tag "runningContainer"
  then bool_decide (is_Some (containerDesc n))
  else if String.eqb tag "azureSubscription" || String.eqb tag "azureRegistry"
          || String.eqb tag "azureRepositoryTag"
  then bool_decide (is_Some (node_subscription n))
  else if String.eqb tag "azureRepository"
  then bool_decide (is_Some (node_subscription n))
       && match repository n with RepoServer _ => true | _ => false end
  else if String.eqb tag "dockerHubRegistryImage"
  then match repository n with RepoHub _ => true | _ => false end
  else true.

Definition tagged (n : DockerNode) : Prop := wellTagged n = true.

(** Following the links from a page runs into a listing that fails, after
    [n] pages. *)
Inductive breaks {T} (listNext : string → Promise (PartialList T))
    : PartialList T → nat → Error → Prop :=
| breaks_here page link e :
    nextLink page = Some link →
    truthy (Some link) = true →
    listNext link = Failed e →
    breaks listNext page 1 e
| breaks_later page link next n e :
    nextLink page = Some link →
    truthy (Some link) = true →
    listNext link = Fulfilled next →
    breaks listNext next n e →
    breaks listNext page (S n) e.

(** What the host can call: everything but the private [setAutoRefresh]. *)
Definition hostCall (c : Call) : bool :=
  match c with
  | CallSetAutoRefresh => false
  | _ => true
  end.

(** ** The objects of the other branches *)

(** The object the Docker Hub branch leaves for a repository. *)
Definition hubObject (myRepo : HubRepo) : DockerNode :=
  {| label := show (namespace myRepo) +:+ "/" +:+ show (name myRepo);
     collapsibleState := Collapsed; contextValue := "dockerHubRegistryImage";
     command := None; iconPath := IconNull;
     containerDesc := None; imageDesc := None;
     repository := RepoHub myRepo; node_subscription := None;
     refreshTokenARC := None; accessTokenARC := None |}.

(** The object the Docker Hub image branch leaves for a tag of [element]. *)
Definition hubTagObject (element : DockerNode) (tag : HubTag) : DockerNode :=
  {| label := show (repo_name (repository element)) +:+ ":" +:+ show (tag_name tag);
     collapsibleState := None_; contextValue := "dockerHubRegistryImageTag";
     command := None; iconPath := IconNull;
     containerDesc := None; imageDesc := None;
     repository := RepoEmpty; node_subscription := None;
     refreshTokenARC := None; accessTokenARC := None |}.

(** The object the subscription branch leaves for a registry. *)
Definition registryObject (element : DockerNode) (reg : Registry) : DockerNode :=
  {| label := loginServer reg;
     collapsibleState := Collapsed; contextValue := "azureRegistry";
     command := None; iconPath := IconNull;
     containerDesc := None; imageDesc := None;
     repository := RepoEmpty; node_subscription := node_subscription element;
     refreshTokenARC := None; accessTokenARC := None |}.

(** The object the registry branch leaves for a repository of the catalog,
    with the two tokens of the exchange. *)
Definition azureRepositoryObject (element : DockerNode)
    (refreshToken accessToken : option JsonField) (repo : string) : DockerNode :=
  {| label := repo;
     collapsibleState := Collapsed; contextValue := "azureRepository";
     command := None; iconPath := IconNull;
     containerDesc := None; imageDesc := None;
     repository := RepoServer (label element);
     node_subscription := node_subscription element;
     refreshTokenARC := refreshToken; accessTokenARC := accessToken |}.

(** The object the repository branch leaves for a tag. *)
Definition azureTagObject (element : DockerNode)
    (accessToken : option JsonField) (tag : string) : DockerNode :=
  {| label := label element +:+ ":" +:+ tag;
     collapsibleState := None_; contextValue := "azureRepositoryTag";
     command := None; iconPath := IconNull;
     containerDesc := None; imageDesc := None;
     repository := repository element;
     node_subscription := node_subscription element;
     refreshTokenARC := refreshTokenARC element; accessTokenARC := accessToken |}.

(** * Properties *)

(** ** The world and the monad *)

Lemma set_heap_same w : set_heap (heap w) w = w.
Proof. by destruct w. Qed.

Lemma set_heap_twice h h' w : set_heap h (set_heap h' w) = set_heap h w.
Proof. done. Qed.

Lemma bind_resolved {A B} (m : M A) (k : A → M B) w a w' :
  m w = (Resolved a, w') → bind m k w = k a w'.
Proof. unfold bind. by intros ->. Qed.

Lemma bind_rejected {A B} (m : M A) (k : A → M B) w e w' :
  m w = (Rejected e, w') → bind m k w = (Rejected e, w').
Proof. unfold bind. by intros ->. Qed.

Lemma keeps_ret {A} (a : A) : keeps (ret a).
Proof. done. Qed.

Lemma keeps_throw {A} e : keeps (@throw A e).
Proof. done. Qed.

Lemma keeps_get : keeps get.
Proof. done. Qed.

Lemma keeps_await {A} (p : Promise A) : keeps (await p).
Proof. by destruct p. Qed.

Lemma keeps_bind {A B} (m : M A) (k : A → M B) :
  keeps m → (∀ a, keeps (k a)) → keeps (bind m k).
Proof.
  intros Hm Hk w. unfold bind. specialize (Hm w).
  destruct (m w) as [[a| e |] w']; simpl in *; try done.
  by rewrite Hk.
Qed.

Lemma keeps_modify (f : World → World) :
  (∀ w, categoryNodes (f w) = categoryNodes w) → keeps (modify f).
Proof. intros Hf w. apply Hf. Qed.

Lemma keeps_mapM {A B} (f : A → M B) l :
  (∀ x, keeps (f x)) → keeps (mapM f l).
Proof.
  intros Hf. induction l as [|x l IH]; simpl.
  - apply keeps_ret.
  - apply keeps_bind; [apply Hf|]. intros y.
    apply keeps_bind; [apply IH|]. intros ys. apply keeps_ret.
Qed.

Lemma keeps_new_DockerNode lbl cs ctx cmd icon :
  keeps (new_DockerNode lbl cs ctx cmd icon).
Proof. done. Qed.

Lemma keeps_assign l f : keeps (assign l f).
Proof. done. Qed.

Lemma keeps_fire node : keeps (fire node).
Proof. done. Qed.

Lemma keeps_clearTimeout t : keeps (clearTimeout t).
Proof. intros w. by destruct t. Qed.

Lemma keeps_setTimeout delay : keeps (setTimeout delay).
Proof. done. Qed.

Lemma keeps_listAll_loop {T} fuel listNext (page : PartialList T) all :
  keeps (listAll_loop fuel listNext page all).
Proof.
  revert page all. induction fuel as [|fuel IH]; intros page all; simpl.
  - destruct (_ || _); [done | apply keeps_ret].
  - destruct (_ || _); [|apply keeps_ret].
    apply keeps_bind; [|intros next; apply IH].
    destruct (nextLink page) as [link|]; [|apply keeps_ret].
    destruct (negb (String.eqb link "")); [apply keeps_await | apply keeps_ret].
Qed.

Create HintDb keeps.
#[export] Hint Resolve keeps_ret keeps_throw keeps_get keeps_await
  keeps_new_DockerNode keeps_assign keeps_fire keeps_clearTimeout
  keeps_setTimeout keeps_listAll_loop : keeps.

(** One step of a frame proof: split a [bind], a loop or a case
    distinction, or close a leaf from the hint database. *)
Ltac keeps_step :=
  match goal with
  | |- keeps (bind _ _) => apply keeps_bind; [|intros ?]
  | |- keeps (mapM _ _) => apply keeps_mapM; intros ?
  | |- keeps (modify _) => apply keeps_modify; intros ?; reflexivity
  | |- keeps (if ?b then _ else _) => destruct b
  | |- keeps (match ?x with _ => _ end) => destruct x
  | |- keeps _ => solve [auto with keeps]
  end.

Ltac keeps_all := repeat keeps_step.

Section Frame.

Context (B : Backend).

Lemma keeps_refreshImages : keeps refreshImages.
Proof. unfold refreshImages. keeps_all. Qed.

Lemma keeps_refreshContainers : keeps refreshContainers.
Proof. unfold refreshContainers. keeps_all. Qed.

Lemma keeps_refreshRegistries : keeps refreshRegistries.
Proof. unfold refreshRegistries. keeps_all. Qed.

Lemma keeps_refresh : keeps refresh.
Proof.
  unfold refresh.
  auto using keeps_bind, keeps_refreshImages, keeps_refreshContainers,
    keeps_refreshRegistries.
Qed.

Lemma keeps_timeoutCallback : keeps timeoutCallback.
Proof.
  unfold timeoutCallback.
  auto using keeps_bind, keeps_refreshImages, keeps_refreshContainers.
Qed.

Lemma keeps_setAutoRefresh : keeps (setAutoRefresh B).
Proof. unfold setAutoRefresh. keeps_all. Qed.

Lemma keeps_expire id : keeps (expire id).
Proof.
  unfold expire. apply keeps_bind; [apply keeps_get|]. intros w.
  destruct (decide _); [|apply keeps_ret].
  apply keeps_bind; [|intros; apply keeps_timeoutCallback].
  keeps_all.
Qed.

Lemma keeps_listAll {T} fuel listNext (first : Promise (PartialList T)) :
  keeps (listAll fuel listNext first).
Proof. unfold listAll. keeps_all. Qed.

Lemma keeps_getSubscriptions fuel : keeps (getSubscriptions B fuel).
Proof.
  unfold getSubscriptions. keeps_all. apply keeps_listAll.
Qed.

Lemma keeps_settle {A} (callback : M A) unassigned :
  keeps callback → keeps (settle callback unassigned).
Proof.
  intros H w. unfold settle. specialize (H w).
  by destruct (callback w) as [[a|e|] w'].
Qed.

Lemma keeps_request {A} r (callback : option Error → option Body → M A) unassigned :
  (∀ err body, keeps (callback err body)) →
  keeps (request B r callback unassigned).
Proof.
  intros H. unfold request.
  assert (Hsent : keeps
    (modify (λ w, set_requests (requests w ++ [r]) w) ;;;
     match http B r with
     | Fulfilled body => settle (callback None (Some body)) unassigned
     | Failed e => settle (callback (Some e) None) unassigned ;;; throw e
     end)).
  { apply keeps_bind; [by apply keeps_modify|]. intros _.
    destruct (http B r) as [body|e]; [by apply keeps_settle|].
    apply keeps_bind; [by apply keeps_settle | intros; apply keeps_throw]. }
  destruct (bearer r) as [[token|]|]; try done.
  apply keeps_bind; [apply H | intros; apply keeps_throw].
Qed.

Lemma keeps_received body : keeps (received body).
Proof. unfold received. keeps_all. Qed.

Lemma keeps_tokenCallback field err body : keeps (tokenCallback field err body).
Proof.
  unfold tokenCallback, JSON_parse.
  apply keeps_bind; [apply keeps_received|]. intros. keeps_all.
Qed.

Lemma keeps_entries v : keeps (entries v).
Proof. unfold entries. keeps_all. Qed.

Lemma keeps_expandImages : keeps (expandImages B).
Proof. unfold expandImages, imageNodes. keeps_all. Qed.

Lemma keeps_expandContainers : keeps (expandContainers B).
Proof. unfold expandContainers, containerNode. keeps_all. Qed.

Lemma keeps_expandRegistries fuel : keeps (expandRegistries B fuel).
Proof.
  unfold expandRegistries. keeps_all. apply keeps_getSubscriptions.
Qed.

Lemma keeps_hubRepositories : keeps (hubRepositories B).
Proof. unfold hubRepositories. keeps_all. Qed.

Lemma keeps_expandDockerHub : keeps (expandDockerHub B).
Proof.
  unfold expandDockerHub, setLoginToken, setPassword, getPassword.
  keeps_all; apply keeps_hubRepositories.
Qed.

Lemma keeps_expandHubImage element : keeps (expandHubImage B element).
Proof. unfold expandHubImage. keeps_all. Qed.

Lemma keeps_expandSubscription element : keeps (expandSubscription B element).
Proof. unfold expandSubscription. keeps_all. Qed.

Lemma keeps_acquireToken s : keeps (acquireToken B s).
Proof. unfold acquireToken. keeps_all. Qed.

Lemma keeps_expandRegistry element : keeps (expandRegistry B element).
Proof.
  unfold expandRegistry. destruct (node_subscription element); [|apply keeps_throw].
  apply keeps_bind; [apply keeps_acquireToken|]. intros tokens.
  destruct (_ && _); [|apply keeps_ret].
  apply keeps_bind; [apply keeps_request; intros; apply keeps_tokenCallback|].
  intros rt.
  apply keeps_bind; [apply keeps_request; intros; apply keeps_tokenCallback|].
  intros at_.
  apply keeps_bind; [|intros; apply keeps_ret].
  apply keeps_request. intros err body.
  apply keeps_bind; [apply keeps_received|]. intros body'.
  unfold JSON_parse, showWarningMessage.
  destruct (nonEmpty body'); [|keeps_all].
  apply keeps_bind; [keeps_all|]. intros doc.
  apply keeps_bind; [apply keeps_entries|]. intros. keeps_all.
Qed.

Lemma keeps_expandRepository element : keeps (expandRepository B element).
Proof.
  unfold expandRepository. destruct (node_subscription element); [|apply keeps_throw].
  apply keeps_bind; [apply keeps_acquireToken|]. intros tokens.
  destruct (_ && _); [|apply keeps_ret].
  apply keeps_bind; [apply keeps_request; intros; apply keeps_tokenCallback|].
  intros rt.
  apply keeps_bind; [apply keeps_request; intros; apply keeps_tokenCallback|].
  intros at_.
  apply keeps_bind; [|intros; apply keeps_ret].
  apply keeps_request. intros [err|] body; [apply keeps_ret|].
  apply keeps_bind; [apply keeps_received|]. intros body'.
  unfold JSON_parse.
  destruct (nonEmpty body'); [|keeps_all].
  apply keeps_bind; [keeps_all|]. intros doc.
  apply keeps_bind; [apply keeps_entries|]. intros. keeps_all.
Qed.

(** Expanding a node, any node, leaves the category references alone: they
    are assigned in the top-level branch only. *)
Lemma keeps_getDockerNodes fuel element :
  keeps (getDockerNodes B fuel (Some element)).
Proof.
  unfold getDockerNodes.
  repeat match goal with
         | |- keeps (if ?b then _ else _) => destruct b
         end;
    try (apply keeps_bind; [|intros; apply keeps_ret]);
    auto using keeps_expandImages, keeps_expandContainers,
      keeps_expandRegistries, keeps_expandDockerHub, keeps_expandHubImage,
      keeps_expandSubscription, keeps_expandRegistry, keeps_expandRepository,
      keeps_ret.
Qed.

Lemma call_keeps c w :
  topLevelCall c = false → categoryNodes (call B c w) = categoryNodes w.
Proof.
  destruct c as [| | | | | id | fuel [element|]]; simpl; intros Htop;
    try discriminate.
  - apply keeps_refresh.
  - apply keeps_refreshImages.
  - apply keeps_refreshContainers.
  - apply keeps_refreshRegistries.
  - apply keeps_setAutoRefresh.
  - apply keeps_expire.
  - apply keeps_getDockerNodes.
Qed.

End Frame.

Lemma run_keeps calls w :
  Forall (λ bc : Backend * Call, topLevelCall bc.2 = false) calls →
  categoryNodes (run calls w) = categoryNodes w.
Proof.
  intros Hcalls. revert w.
  induction Hcalls as [|[B c] calls Hc _ IH]; intros w; [done|].
  change (run ((B, c) :: calls) w) with (run calls (call B c w)).
  rewrite IH. by apply call_keeps.
Qed.

(** ** Allocation *)

Lemma alter_last {A} (f : A → A) (h : list A) (x : A) :
  alter f (length h) (h ++ [x]) = h ++ [f x].
Proof. rewrite alter_app_r_alt by done. by rewrite Nat.sub_diag. Qed.

Lemma mapM_nil {A B} (f : A → M B) w : mapM f [] w = (Resolved [], w).
Proof. done. Qed.

Lemma mapM_cons {A B} (f : A → M B) x xs w y w' :
  f x w = (Resolved y, w') →
  mapM f (x :: xs) w
  = match mapM f xs w' with
    | (Resolved ys, w'') => (Resolved (y :: ys), w'')
    | (Rejected e, w'') => (Rejected e, w'')
    | (OutOfFuel, w'') => (OutOfFuel, w'')
    end.
Proof.
  intros Hx. simpl. unfold bind at 1. rewrite Hx. unfold bind at 1.
  by destruct (mapM f xs w') as [[ys|e|] w''].
Qed.

(** A loop whose body does not touch the world. *)
Lemma mapM_pure {A B} (f : A → M B) (g : A → B) xs w :
  Forall (λ x, ∀ w, f x w = (Resolved (g x), w)) xs →
  mapM f xs w = (Resolved (map g xs), w).
Proof.
  induction 1 as [|x xs Hx _ IH]; [done|].
  by rewrite (mapM_cons _ _ _ _ _ _ (Hx w)), IH.
Qed.

(** A loop whose body allocates one object per round. *)
Lemma mapM_allocates {A} (body : A → M loc) (mk : A → DockerNode) xs :
  Forall (λ x, ∀ w, body x w = (Resolved (length (heap w)),
                                 set_heap (heap w ++ [mk x]) w)) xs →
  ∀ w, mapM body xs w
       = (Resolved (seq (length (heap w)) (length xs)),
          set_heap (heap w ++ map mk xs) w).
Proof.
  induction 1 as [|x xs Hx _ IH]; intros w.
  - simpl. rewrite app_nil_r. by rewrite set_heap_same.
  - rewrite (mapM_cons _ _ _ _ _ _ (Hx w)), IH. simpl.
    rewrite length_app. simpl. rewrite Nat.add_1_r.
    by rewrite <- (assoc_L (++)).
Qed.

(** A loop whose body allocates a block of objects per round. *)
Lemma mapM_allocates_blocks {A} (body : A → M (list loc))
    (mks : A → list DockerNode) xs :
  (∀ x w, body x w = (Resolved (seq (length (heap w)) (length (mks x))),
                      set_heap (heap w ++ mks x) w)) →
  ∀ w, mapM body xs w
       = (Resolved (chunks (λ x, length (mks x)) (length (heap w)) xs),
          set_heap (heap w ++ concat (map mks xs)) w).
Proof.
  intros Hbody. induction xs as [|x xs IH]; intros w.
  - simpl. rewrite app_nil_r. by rewrite set_heap_same.
  - rewrite (mapM_cons _ _ _ _ _ _ (Hbody x w)), IH. simpl.
    rewrite length_app. by rewrite <- (assoc_L (++)).
Qed.

(** Where the objects of a block are. *)
Lemma lookup_block {A} (h ys zs : list A) :
  Forall2 (λ y l, (h ++ ys ++ zs) !! l = Some y) ys (seq (length h) (length ys)).
Proof.
  revert h. induction ys as [|y ys IH]; intros h; simpl; constructor.
  - by rewrite list_lookup_middle.
  - specialize (IH (h ++ [y])). rewrite length_app in IH. simpl in IH.
    rewrite Nat.add_1_r, <- (assoc_L (++)) in IH. done.
Qed.

Lemma lookup_allocated {A} (mk : A → DockerNode) h xs :
  Forall2 (λ x l, (h ++ map mk xs) !! l = Some (mk x)) xs
          (seq (length h) (length xs)).
Proof.
  pose proof (lookup_block h (map mk xs) []) as H.
  rewrite app_nil_r, length_map in H.
  apply Forall2_fmap_l in H. done.
Qed.

Lemma lookup_chunks {A} (mks : A → list DockerNode) xs h :
  Forall2 (λ x block,
             Forall2 (λ n l, (h ++ concat (map mks xs)) !! l = Some n) (mks x) block)
          xs (chunks (λ x, length (mks x)) (length h) xs).
Proof.
  revert h. induction xs as [|x xs IH]; intros h; simpl; constructor.
  - apply lookup_block.
  - specialize (IH (h ++ mks x)).
    rewrite length_app, <- (assoc_L (++)) in IH. done.
Qed.

(** ** The top-level expansion *)

(** C7: a top-level expansion ([getChildren] without a node) stores three
    newly allocated category nodes in [_imagesNode], [_containersNode] and
    [_registriesNode] and returns them.  The nodes are new objects (their
    references were not allocated before), every object that existed keeps
    its fields, and nothing else of the provider or of the world changes:
    [_debounceTimer] and [_keytar] are as before, no event is fired, no
    timer, credential, exchange or warning is touched. *)
Theorem top_level_replaces_category_nodes (B : Backend) (fuel : nat) (w : World) :
  let l := length (heap w) in
  let w' := (getChildren B fuel None w).2 in
  (getChildren B fuel None w).1 = Resolved (Some [l; S l; S (S l)])
  ∧ heap w' = heap w ++ [categoryNode "Images" "imagesLabel";
                         categoryNode "Containers" "containersLabel";
                         categoryNode "Registries" "registriesLabel"]
  ∧ this w' = {| _imagesNode := Some l;
                 _containersNode := Some (S l);
                 _registriesNode := Some (S (S l));
                 _debounceTimer := _debounceTimer (this w);
                 _keytar := _keytar (this w) |}
  ∧ (heap w !! l = None ∧ heap w !! S l = None ∧ heap w !! S (S l) = None)
  ∧ (∀ k n, heap w !! k = Some n → heap w' !! k = Some n)
  ∧ fired w' = fired w ∧ timers w' = timers w ∧ nextTimer w' = nextTimer w
  ∧ keychain w' = keychain w ∧ loginToken w' = loginToken w
  ∧ requests w' = requests w ∧ warnings w' = warnings w.
Proof.
  intros l w'. subst w'. unfold getChildren, getDockerNodes, topLevel.
  unfold bind, new_DockerNode, modify, ret, categoryNode. simpl.
  rewrite !length_app. simpl.
  replace (length (heap w) + 1) with (S l) by (subst l; lia).
  replace (S l + 1) with (S (S l)) by lia.
  rewrite <- !(assoc_L (++)). simpl.
  repeat split; try done.
  - apply lookup_ge_None_2. lia.
  - apply lookup_ge_None_2. lia.
  - apply lookup_ge_None_2. lia.
  - intros k n Hk. by apply lookup_app_l_Some.
Qed.

(** ** The refresh signals *)

(** C10: as long as [getChildren] was never called without a node, whatever
    else was called on the provider since its construction, each of
    [refreshImages], [refreshContainers] and [refreshRegistries] fires the
    change event with an undefined node. *)
Theorem refresh_before_top_level_fires_undefined
    (keytar_found : bool) (calls : list (Backend * Call)) :
  Forall (λ bc : Backend * Call, topLevelCall bc.2 = false) calls →
  let w := run calls (constructor keytar_found) in
  refreshImages w = (Resolved tt, set_fired (fired w ++ [None]) w)
  ∧ refreshContainers w = (Resolved tt, set_fired (fired w ++ [None]) w)
  ∧ refreshRegistries w = (Resolved tt, set_fired (fired w ++ [None]) w).
Proof.
  intros Hcalls w.
  pose proof (run_keeps calls (constructor keytar_found) Hcalls) as Hkeep.
  fold w in Hkeep. unfold categoryNodes in Hkeep. simpl in Hkeep.
  injection Hkeep as Hi Hc Hr.
  unfold refreshImages, refreshContainers, refreshRegistries, bind, get, fire,
    modify.
  by rewrite Hi, Hc, Hr.
Qed.

Lemma refresh_before_top_level_fires_undefined_witness :
  let calls := [(offline, CallRefresh);
                (with_interval (Some 250%Z) offline, CallSetAutoRefresh);
                (offline, CallGetChildren 0 (Some (categoryNode "Images" "imagesLabel")));
                (offline, CallExpire 0)] in
  fired (refreshImages (run calls (constructor false))).2
  = [None; None; None; None; None; None].
Proof.
  intros calls.
  assert (Hcalls : Forall (λ bc : Backend * Call, topLevelCall bc.2 = false) calls)
    by (repeat constructor).
  destruct (refresh_before_top_level_fires_undefined false calls Hcalls)
    as [Himages _].
  rewrite Himages. reflexivity.
Defined.

(** ** The auto-refresh timer *)

Lemma filter_all {A} (P : A → Prop) `{∀ x, Decision (P x)} (l : list A) :
  (∀ x, P x) → filter P l = l.
Proof.
  intros HP. induction l as [|x l IH]; [done|].
  rewrite filter_cons_True by done. by rewrite IH.
Qed.

(** C8: [setAutoRefresh] schedules a timer exactly when the configured
    interval (1000 when not configured) is strictly positive; otherwise it
    changes nothing.  Scheduling removes the timer of [_debounceTimer] from
    the pending ones and adds one new timer, which becomes [_debounceTimer]:
    however often it is called on a new provider, one timer is pending.
    When that timer expires, the change event is fired for the images node
    and then for the containers node. *)
Theorem setAutoRefresh_debounces (B : Backend) (w : World) :
  let interval := default 1000%Z (explorerRefreshInterval B) in
  let id := nextTimer w in
  let scheduled :=
    set_this (set_debounceTimer (Some id) (this w))
      (set_timers
         (filter (λ p, Some p.1 ≠ _debounceTimer (this w)) (timers w)
            ++ [(id, interval)])
         (S id) w) in
  setAutoRefresh B w
  = (Resolved tt, if decide (0 < interval)%Z then scheduled else w)
  ∧ fired (expire id scheduled).2
    = fired w ++ [_imagesNode (this w); _containersNode (this w)]
  ∧ ∀ (keytar_found : bool) (n : nat),
      timers (Nat.iter (S n) (λ w, (setAutoRefresh B w).2)
                       (constructor keytar_found))
      = if decide (0 < interval)%Z then [(n, interval)] else [].
Proof.
  intros interval id scheduled.
  assert (Hset : ∀ w, setAutoRefresh B w
    = (Resolved tt,
       if decide (0 < interval)%Z then
         set_this (set_debounceTimer (Some (nextTimer w)) (this w))
           (set_timers
              (filter (λ p, Some p.1 ≠ _debounceTimer (this w)) (timers w)
                 ++ [(nextTimer w, interval)])
              (S (nextTimer w)) w)
       else w)).
  { clear. intros w. unfold setAutoRefresh. fold interval.
    destruct (decide (interval > 0)%Z) as [Hpos|Hneg].
    - rewrite decide_True by lia.
      unfold bind, get, clearTimeout, setTimeout, modify. simpl.
      destruct (_debounceTimer (this w)) as [old|] eqn:Hold; simpl.
      + assert (Hf : filter (λ p : TimerId * Z, Some p.1 ≠ Some old) (timers w)
                     = filter (λ p : TimerId * Z, p.1 ≠ old) (timers w)).
        { apply list_filter_iff. intros [i d]; simpl. split; congruence. }
        by rewrite Hf.
      + by rewrite filter_all.
    - rewrite decide_False by lia. done. }
  split; [apply Hset|]. split.
  - unfold expire, bind, get. simpl.
    rewrite decide_True.
    + unfold timeoutCallback, refreshImages, refreshContainers, bind, get,
        fire, modify. simpl. by rewrite <- (assoc_L (++)).
    + rewrite fmap_app. simpl. apply elem_of_app. right. constructor.
  - intros keytar_found n.
    set (step := λ w : World, (setAutoRefresh B w).2).
    assert (Hstep : ∀ w, step w
      = if decide (0 < interval)%Z then
          set_this (set_debounceTimer (Some (nextTimer w)) (this w))
            (set_timers
               (filter (λ p, Some p.1 ≠ _debounceTimer (this w)) (timers w)
                  ++ [(nextTimer w, interval)])
               (S (nextTimer w)) w)
        else w).
    { intros w0. unfold step. by rewrite Hset. }
    clearbody step.
    destruct (decide (0 < interval)%Z) as [Hpos|Hneg].
    + assert (Hinv : ∀ n,
        timers (Nat.iter (S n) step (constructor keytar_found)) = [(n, interval)]
        ∧ nextTimer (Nat.iter (S n) step (constructor keytar_found)) = S n
        ∧ _debounceTimer (this (Nat.iter (S n) step (constructor keytar_found)))
          = Some n).
      { clear n. induction n as [|n IH].
        - rewrite Nat.iter_succ, Hstep. done.
        - destruct IH as (Ht & Hn & Hd).
          rewrite Nat.iter_succ, Hstep.
          set (wn := Nat.iter (S n) step (constructor keytar_found)) in *.
          clearbody wn. simpl.
          rewrite Ht, Hn, Hd. simpl.
          rewrite filter_cons_False by (intros H; by apply H). done. }
      apply Hinv.
    + induction n as [|n IH].
      * rewrite Nat.iter_succ, Hstep. done.
      * rewrite Nat.iter_succ, Hstep. apply IH.
Qed.

(** ** Pagination *)

Lemma listAll_loop_done {T} fuel listNext (all : list T) w :
  listAll_loop fuel listNext {| items := []; nextLink := None |} all w
  = (Resolved all, w).
Proof. by destruct fuel. Qed.

(** The loop pushes the pages of the chain, in order, after what was pushed
    before; a unit of fuel per page is enough. *)
Lemma listAll_loop_chain {T} listNext (page : PartialList T) pages :
  chain listNext page pages →
  ∀ fuel all w, length pages ≤ fuel →
    listAll_loop fuel listNext page all w
    = (Resolved (all ++ concat (map items pages)), w).
Proof.
  induction 1 as [page Hlast | page link next rest Hlink Htruthy Hnext _ IH];
    intros fuel all w Hfuel; simpl in Hfuel.
  - destruct fuel as [|fuel]; [lia|]. simpl. rewrite Hlast, !app_nil_r.
    destruct (items page) as [|x xs] eqn:Hitems; simpl.
    + by rewrite app_nil_r.
    + destruct (nextLink page) as [link|]; [simpl in Hlast; rewrite Hlast|];
        unfold bind, ret; by rewrite listAll_loop_done.
  - destruct fuel as [|fuel]; [lia|]. simpl.
    rewrite Hlink, Htruthy, orb_true_r. simpl. rewrite Hnext.
    simpl in Htruthy. rewrite Htruthy.
    unfold bind at 1. simpl. rewrite IH by lia. by rewrite (assoc_L (++)).
Qed.

(** C4: [listAll] returns the items of all the pages that following the
    continuation links from the first page reaches, concatenated in order,
    as soon as it has a unit of fuel per page.  A first page without a link
    is the chain of that page alone, two linked pages the chain of the two. *)
Theorem listAll_concatenates_pages {T} (listNext : string → Promise (PartialList T))
    (first : PartialList T) (pages : list (PartialList T)) (fuel : nat) (w : World) :
  chain listNext first pages →
  length pages ≤ fuel →
  listAll fuel listNext (Fulfilled first) w
  = (Resolved (concat (map items pages)), w).
Proof.
  intros Hchain Hfuel. unfold listAll. simpl. unfold bind at 1, ret at 1.
  by rewrite (listAll_loop_chain _ _ _ Hchain).
Qed.

Lemma listAll_concatenates_pages_witness :
  let page2 := {| items := [3; 4]; nextLink := None |} in
  let page1 := {| items := [1; 2]; nextLink := Some "page2" |} in
  let listNext := λ link, if String.eqb link "page2" then Fulfilled page2
                          else Failed (Failure "no such page") in
  listAll 2 listNext (Fulfilled page1) (constructor false)
  = (Resolved [1; 2; 3; 4], constructor false).
Proof.
  intros page2 page1 listNext.
  apply (listAll_concatenates_pages listNext page1 [page1; page2]).
  - apply (chain_next listNext page1 "page2" page2 [page2]);
      [reflexivity | reflexivity | reflexivity |].
    apply chain_last. reflexivity.
  - simpl. lia.
Defined.

(** The two cases the specification singles out. *)
Lemma listAll_single_page {T} listNext (first : PartialList T) fuel w :
  truthy (nextLink first) = false → 1 ≤ fuel →
  listAll fuel listNext (Fulfilled first) w = (Resolved (items first), w).
Proof.
  intros Hlast Hfuel. unfold listAll. simpl. unfold bind at 1, ret at 1.
  rewrite (listAll_loop_chain listNext first [first] (chain_last _ _ Hlast))
    by done.
  simpl. by rewrite app_nil_r.
Qed.

Lemma listAll_two_pages {T} listNext (first second : PartialList T) link fuel w :
  nextLink first = Some link → truthy (Some link) = true →
  listNext link = Fulfilled second → truthy (nextLink second) = false →
  2 ≤ fuel →
  listAll fuel listNext (Fulfilled first) w
  = (Resolved (items first ++ items second), w).
Proof.
  intros Hlink Htruthy Hnext Hlast Hfuel.
  unfold listAll. simpl. unfold bind at 1, ret at 1.
  rewrite (listAll_loop_chain listNext first [first; second]).
  - simpl. by rewrite app_nil_r.
  - eapply chain_next; eauto. by constructor.
  - done.
Qed.

(** A page that links to itself is followed for ever: whatever the fuel, the
    loop does not come to an end. *)
Lemma listAll_cycle fuel w :
  let page := {| items := [1]; nextLink := Some "again" |} in
  listAll fuel (λ _, Fulfilled page) (Fulfilled page) w = (OutOfFuel, w).
Proof.
  intros page. unfold listAll. simpl. unfold bind at 1, ret at 1.
  generalize (@nil nat). induction fuel as [|fuel IH]; intros all; [done|].
  simpl. unfold bind at 1. simpl. apply IH.
Qed.

(** ** Containers *)

Lemma stopped_iff state :
  stopped state = true ↔ state = "exited" ∨ state = "dead".
Proof.
  unfold stopped. rewrite bool_decide_eq_true.
  rewrite !elem_of_cons, elem_of_nil. tauto.
Qed.

Lemma containerNode_allocates container w :
  Names container ≠ [] →
  containerNode container w
  = (Resolved (length (heap w)),
     set_heap (heap w ++ [containerObject container (hd "" (Names container))]) w).
Proof.
  intros Hnames. unfold containerNode, containerObject.
  destruct (Names container) as [|first rest]; [done|]. simpl.
  unfold bind, new_DockerNode, assign, modify, ret. simpl.
  by rewrite alter_last.
Qed.

Lemma containerNode_rejects container w :
  Names container = [] →
  containerNode container w = (Rejected (TypeError "Names[0].substring"), w).
Proof. intros Hnames. unfold containerNode. by rewrite Hnames. Qed.

Lemma containers_resolve containers w :
  Forall (λ c, Names c ≠ []) containers →
  mapM containerNode containers w
  = (Resolved (seq (length (heap w)) (length containers)),
     set_heap (heap w ++ map (λ c, containerObject c (hd "" (Names c))) containers) w).
Proof.
  intros Hnames. apply mapM_allocates.
  eapply Forall_impl; [exact Hnames|]. intros c Hc w'.
  by apply containerNode_allocates.
Qed.

Lemma containers_reject containers w :
  Exists (λ c, Names c = []) containers →
  ∃ w', mapM containerNode containers w
        = (Rejected (TypeError "Names[0].substring"), w').
Proof.
  intros Hex. revert w.
  induction containers as [|c cs IH]; intros w; [by inversion Hex|].
  destruct (Names c) as [|first rest] eqn:Hnames.
  - exists w. simpl. unfold bind at 1.
    by rewrite containerNode_rejects.
  - assert (Hc : Names c ≠ []) by (by rewrite Hnames).
    inversion Hex as [? ? Hhead | ? ? Htail]; subst; [congruence|].
    rewrite (mapM_cons _ _ _ _ _ _ (containerNode_allocates c w Hc)).
    destruct (IH Htail (set_heap
      (heap w ++ [containerObject c (hd "" (Names c))]) w)) as [w' ->].
    by exists w'.
Qed.

Lemma expandContainers_some B containers w :
  getContainerDescriptors B statusFilter = Fulfilled (Some containers) →
  expandContainers B w = mapM containerNode containers w.
Proof.
  intros Hdaemon. unfold expandContainers. rewrite Hdaemon. simpl.
  unfold bind at 1, ret at 1. by destruct containers.
Qed.

(** C5: every node of the containers expansion is in one of two groups,
    told apart by [contextValue] and icon: a container whose state is
    [exited] or [dead] gets a [stoppedContainer] node with the grey icon
    pair [mono_moby_small.png], every other container a [runningContainer]
    node with the coloured pair [moby_small.png].  The expansion returns one
    node per descriptor, in order, carrying that descriptor, whenever every
    descriptor has a first name to read. *)
Theorem containers_classified_by_state (B : Backend) (fuel : nat)
    (element : DockerNode) (containers : list ContainerDesc) (w : World) :
  contextValue element = "containersLabel" →
  getContainerDescriptors B statusFilter = Fulfilled (Some containers) →
  Forall (λ c, Names c ≠ []) containers →
  ∃ locs w',
    getChildren B fuel (Some element) w = (Resolved (Some locs), w')
    ∧ Forall2 (λ c l, ∃ n,
        heap w' !! l = Some n
        ∧ containerDesc n = Some c
        ∧ (State c ∈ ["exited"; "dead"] →
             contextValue n = "stoppedContainer"
             ∧ iconPath n = Icons "images/light/mono_moby_small.png"
                                  "images/dark/mono_moby_small.png")
        ∧ (State c ∉ ["exited"; "dead"] →
             contextValue n = "runningContainer"
             ∧ iconPath n = Icons "images/light/moby_small.png"
                                  "images/dark/moby_small.png"))
      containers locs.
Proof.
  intros Htag Hdaemon Hnames.
  eexists _, _. split.
  - unfold getChildren, getDockerNodes. rewrite Htag. simpl.
    unfold bind at 1. rewrite (expandContainers_some _ _ _ Hdaemon).
    rewrite (containers_resolve _ _ Hnames). reflexivity.
  - simpl.
    eapply Forall2_impl;
      [apply (lookup_allocated (λ c, containerObject c (hd "" (Names c))))|].
    intros c l Hl. eexists. split; [exact Hl|]. simpl.
    split; [done|]. unfold stopped.
    split; intros Hstate.
    + by rewrite bool_decide_eq_true_2.
    + by rewrite bool_decide_eq_false_2.
Qed.

Lemma containers_classified_by_state_witness :
  let up := {| Image := "nginx"; Names := ["/web"]; State := "running";
               Status := "Up 2 hours" |} in
  let down := {| Image := "redis"; Names := ["/cache"]; State := "exited";
                 Status := "Exited (0) 3 days ago" |} in
  let B := with_containers (λ _, Fulfilled (Some [up; down])) offline in
  ∃ l1 l2 w' n1 n2,
    getChildren B 0 (Some (categoryNode "Containers" "containersLabel"))
                (constructor false) = (Resolved (Some [l1; l2]), w')
    ∧ heap w' !! l1 = Some n1 ∧ heap w' !! l2 = Some n2
    ∧ contextValue n1 = "runningContainer"
    ∧ iconPath n1 = Icons "images/light/moby_small.png"
                          "images/dark/moby_small.png"
    ∧ contextValue n2 = "stoppedContainer"
    ∧ iconPath n2 = Icons "images/light/mono_moby_small.png"
                          "images/dark/mono_moby_small.png"
    ∧ iconPath n1 ≠ iconPath n2.
Proof.
  intros up down B.
  destruct (containers_classified_by_state B 0
              (categoryNode "Containers" "containersLabel") [up; down]
              (constructor false))
    as (locs & w' & Hrun & Hnodes).
  - reflexivity.
  - reflexivity.
  - repeat constructor; discriminate.
  - inversion Hnodes as [|? l1 ? rest1 (n1 & Hl1 & _ & _ & Hup) Hrest]; subst.
    inversion Hrest as [|? l2 ? rest2 (n2 & Hl2 & _ & Hdown & _) Hnil]; subst.
    inversion Hnil; subst.
    destruct Hup as [Hctx1 Hicon1].
    { intros Hin. repeat (apply elem_of_cons in Hin as [Heq|Hin]; [discriminate|]).
      by apply elem_of_nil in Hin. }
    destruct Hdown as [Hctx2 Hicon2]; [by left|].
    exists l1, l2, w', n1, n2.
    repeat split; try done.
    rewrite Hicon1, Hicon2. discriminate.
Defined.

(** C9, as the code has it: the containers expansion reads the first name of
    every descriptor and drops its first character.  It comes to an end with
    one node per descriptor exactly when every descriptor has a first name,
    that is a non-empty [Names] array; an empty first name is no obstacle,
    since [substring(1)] of the empty string is the empty string.  A
    descriptor with an empty [Names] array makes the expansion fail with a
    type error. *)
Theorem containers_need_a_first_name (B : Backend) (containers : list ContainerDesc)
    (w : World) :
  getContainerDescriptors B statusFilter = Fulfilled (Some containers) →
  (Forall (λ c, Names c ≠ []) containers →
     ∃ locs w', expandContainers B w = (Resolved locs, w')
                ∧ length locs = length containers)
  ∧ (Exists (λ c, Names c = []) containers →
     ∃ w', expandContainers B w = (Rejected (TypeError "Names[0].substring"), w')).
Proof.
  intros Hdaemon. rewrite (expandContainers_some _ _ _ Hdaemon). split.
  - intros Hnames. rewrite (containers_resolve _ _ Hnames).
    eexists _, _. split; [reflexivity|]. by rewrite length_seq.
  - apply containers_reject.
Qed.

Lemma containers_need_a_first_name_witness :
  let named := {| Image := "nginx"; Names := ["/web"]; State := "running";
                  Status := "Up 2 hours" |} in
  let nameless := {| Image := "redis"; Names := []; State := "created";
                     Status := "Created" |} in
  (∃ locs w', expandContainers
                (with_containers (λ _, Fulfilled (Some [named])) offline)
                (constructor false) = (Resolved locs, w')
              ∧ length locs = 1)
  ∧ (∃ w', expandContainers
             (with_containers (λ _, Fulfilled (Some [named; nameless])) offline)
             (constructor false)
           = (Rejected (TypeError "Names[0].substring"), w')).
Proof.
  intros named nameless. split.
  - apply (containers_need_a_first_name
             (with_containers (λ _, Fulfilled (Some [named])) offline) [named]
             (constructor false) eq_refl).
    repeat constructor; discriminate.
  - apply (containers_need_a_first_name
             (with_containers (λ _, Fulfilled (Some [named; nameless])) offline)
             [named; nameless] (constructor false) eq_refl).
    apply Exists_cons_tl, Exists_cons_hd. reflexivity.
Defined.

(** C9, as the claim has it, fails: a descriptor whose first name is the
    empty string does not meet the precondition of the claim, and the
    expansion comes to an end all the same, with a node for it. *)
Lemma empty_first_name_is_no_obstacle :
  let c := {| Image := "nginx"; Names := [""]; State := "running";
              Status := "Up 2 hours" |} in
  let B := with_containers (λ _, Fulfilled (Some [c])) offline in
  ¬ (Names c ≠ [] ∧ hd "" (Names c) ≠ "")
  ∧ (expandContainers B (constructor false)).1 = Resolved [0]
  ∧ label <$> heap (expandContainers B (constructor false)).2 !! 0
    = Some "nginx () [Up 2 hours]".
Proof.
  intros c B. split; [|split].
  - intros [_ Hfirst]. by apply Hfirst.
  - reflexivity.
  - reflexivity.
Qed.

(** ** Images *)

Lemma imageNodes_allocates image w :
  imageNodes image w
  = (Resolved (seq (length (heap w)) (length (imageObjects image))),
     set_heap (heap w ++ imageObjects image) w).
Proof.
  unfold imageNodes, imageObjects. destruct (RepoTags image) as [tags|].
  - rewrite (mapM_allocates _ (imageObject image)).
    + by rewrite length_map.
    + apply Forall_forall. intros tag _ w'.
      unfold bind, new_DockerNode, assign, modify, ret. simpl.
      by rewrite alter_last.
  - unfold bind, new_DockerNode, assign, modify, ret. simpl.
    by rewrite alter_last.
Qed.

Lemma expandImages_some B images w :
  getImageDescriptors B = Fulfilled (Some images) →
  expandImages B w
  = (Resolved (concat (chunks (λ i, length (imageObjects i)) (length (heap w)) images)),
     set_heap (heap w ++ concat (map imageObjects images)) w).
Proof.
  intros Hdaemon. unfold expandImages. rewrite Hdaemon. simpl.
  unfold bind at 1, ret at 1. destruct images as [|image images].
  - simpl. rewrite app_nil_r. by rewrite set_heap_same.
  - unfold bind.
    by rewrite (mapM_allocates_blocks imageNodes imageObjects _ imageNodes_allocates).
Qed.

(** C2, as the code has it: the images expansion returns, descriptor after
    descriptor, one node per entry of [RepoTags], labelled with that entry,
    when [RepoTags] is there (none for an empty array), and one node labelled
    [<none>:<none>] when [RepoTags] is missing; every node carries its
    descriptor. *)
Theorem images_one_node_per_repo_tag (B : Backend) (fuel : nat)
    (element : DockerNode) (images : list ImageDesc) (w : World) :
  contextValue element = "imagesLabel" →
  getImageDescriptors B = Fulfilled (Some images) →
  ∃ (perImage : list (list loc)) w',
    getChildren B fuel (Some element) w = (Resolved (Some (concat perImage)), w')
    ∧ Forall2 (λ image locs,
        match RepoTags image with
        | Some tags =>
            length locs = length tags
            ∧ Forall2 (λ tag l, ∃ n, heap w' !! l = Some n ∧ label n = tag
                                     ∧ imageDesc n = Some image) tags locs
        | None =>
            ∃ l n, locs = [l] ∧ heap w' !! l = Some n
                   ∧ label n = "<none>:<none>" ∧ imageDesc n = Some image
        end) images perImage.
Proof.
  intros Htag Hdaemon. eexists _, _. split.
  - unfold getChildren, getDockerNodes. rewrite Htag. simpl.
    unfold bind at 1. rewrite (expandImages_some _ _ _ Hdaemon). reflexivity.
  - simpl. eapply Forall2_impl; [apply lookup_chunks|].
    intros image locs. unfold imageObjects.
    destruct (RepoTags image) as [tags|]; intros Hlocs.
    + apply Forall2_fmap_l in Hlocs. split.
      * symmetry. by eapply Forall2_length.
      * eapply Forall2_impl; [exact Hlocs|].
        intros tag l Hl. by eexists.
    + inversion Hlocs as [|? l ? ? Hl Hrest]; subst.
      inversion Hrest; subst. by eexists _, _.
Qed.

Lemma images_one_node_per_repo_tag_witness :
  let tagged := {| Id := "sha256:1"; RepoTags := Some ["nginx:1.25"; "nginx:latest"] |} in
  let dangling := {| Id := "sha256:2"; RepoTags := None |} in
  let B := with_images (Fulfilled (Some [tagged; dangling])) offline in
  ∃ perImage w',
    getChildren B 0 (Some (categoryNode "Images" "imagesLabel")) (constructor false)
    = (Resolved (Some (concat perImage)), w')
    ∧ length <$> perImage = [2; 1].
Proof.
  intros tagged dangling B.
  destruct (images_one_node_per_repo_tag B 0 (categoryNode "Images" "imagesLabel")
              [tagged; dangling] (constructor false) eq_refl eq_refl)
    as (perImage & w' & Hrun & Hnodes).
  exists perImage, w'. split; [exact Hrun|].
  inversion Hnodes as [|? locs1 ? rest1 H1 Hrest]; subst.
  inversion Hrest as [|? locs2 ? rest2 H2 Hnil]; subst.
  inversion Hnil; subst. simpl in H1, H2.
  destruct H1 as [Hlen1 _]. destruct H2 as (l & n & -> & _).
  simpl. by rewrite Hlen1.
Defined.

(** C2, as the claim has it, fails: a descriptor whose [RepoTags] is the
    empty array has no repo-tag, and the expansion returns no node for it,
    not a [<none>:<none>] node. *)
Lemma no_node_for_empty_RepoTags :
  let image := {| Id := "sha256:3"; RepoTags := Some [] |} in
  let B := with_images (Fulfilled (Some [image])) offline in
  length (default [] (RepoTags image)) = 0
  ∧ getChildren B 0 (Some (categoryNode "Images" "imagesLabel")) (constructor false)
    = (Resolved (Some []), constructor false).
Proof. intros image B. split; reflexivity. Qed.

(** ** Subscriptions *)

Lemma getSubscriptions_resolves B fuel (pages : AzureSession → list (PartialList Subscription)) w :
  Forall (λ s, ∃ first,
            subscriptions_list B s = Fulfilled first
            ∧ chain (subscriptions_listNext B s) first (pages s)
            ∧ length (pages s) ≤ fuel) (sessions B) →
  getSubscriptions B fuel w
  = (Resolved (sort B (concat (map (λ s, map (subscriptionItem s)
                                             (concat (map items (pages s))))
                                   (sessions B)))), w).
Proof.
  intros Hpages. unfold getSubscriptions. unfold bind at 1.
  rewrite (mapM_pure _ (λ s, map (subscriptionItem s) (concat (map items (pages s))))).
  - done.
  - eapply Forall_impl; [exact Hpages|]. simpl.
    intros s (first & Hfirst & Hchain & Hfuel) w'.
    rewrite Hfirst. unfold listAll. simpl. unfold bind, ret.
    by rewrite (listAll_loop_chain _ _ _ Hchain).
Qed.

Lemma subscriptionNode_allocates sub w :
  (node <- new_DockerNode (sub_label sub) Collapsed "azureSubscription"
                          None (Some IconNull) ;;
   assign node (with_subscription (Some sub)) ;;;
   ret node) w
  = (Resolved (length (heap w)), set_heap (heap w ++ [subscriptionObject sub]) w).
Proof.
  unfold bind, new_DockerNode, assign, modify, ret. simpl.
  by rewrite alter_last.
Qed.

(** The code-unit comparator is a consistent comparator. *)
Lemma compare_not_Gt_trans (a b c : string) :
  String.compare a b ≠ Gt → String.compare b c ≠ Gt → String.compare a c ≠ Gt.
Proof.
  revert b c. induction a as [|x a IH]; intros [|y b] [|z c]; simpl; try done.
  unfold Ascii.compare.
  destruct (N.compare_spec (Ascii.N_of_ascii x) (Ascii.N_of_ascii y)) as [Hxy|Hxy|Hxy],
           (N.compare_spec (Ascii.N_of_ascii y) (Ascii.N_of_ascii z)) as [Hyz|Hyz|Hyz],
           (N.compare_spec (Ascii.N_of_ascii x) (Ascii.N_of_ascii z)) as [Hxz|Hxz|Hxz];
    try done; try lia.
  apply IH.
Qed.

Lemma byCodeUnit_le (a b : string) :
  (byCodeUnit a b ≤ 0)%Z ↔ String.compare a b ≠ Gt.
Proof. unfold byCodeUnit. destruct (String.compare a b); split; (done || lia). Qed.

Lemma byCodeUnit_total (a b : string) :
  (byCodeUnit a b ≤ 0 ∨ byCodeUnit b a ≤ 0)%Z.
Proof.
  rewrite !byCodeUnit_le, (String.compare_antisym a b).
  destruct (String.compare b a); simpl; auto.
Qed.

Lemma byCodeUnit_trans (a b c : string) :
  (byCodeUnit a b ≤ 0 → byCodeUnit b c ≤ 0 → byCodeUnit a c ≤ 0)%Z.
Proof. rewrite !byCodeUnit_le. apply compare_not_Gt_trans. Qed.

(** C6: when [localeCompare] is a consistent comparator and the pages of
    every session can be listed, [getSubscriptions] returns the items of all
    sessions sorted by label under [localeCompare], and the registries
    expansion returns, after the Docker Hub node, one node per item in that
    order, labelled with the item's label and carrying the item. *)
Theorem subscriptions_sorted_by_label (B : Backend) (fuel : nat)
    (element : DockerNode)
    (pages : AzureSession → list (PartialList Subscription)) (w : World) :
  (∀ a b, (localeCompare B a b ≤ 0 ∨ localeCompare B b a ≤ 0)%Z) →
  (∀ a b c, (localeCompare B a b ≤ 0 → localeCompare B b c ≤ 0 →
             localeCompare B a c ≤ 0)%Z) →
  contextValue element = "registriesLabel" →
  waitForLogin B = Fulfilled true →
  Forall (λ s, ∃ first,
            subscriptions_list B s = Fulfilled first
            ∧ chain (subscriptions_listNext B s) first (pages s)
            ∧ length (pages s) ≤ fuel) (sessions B) →
  ∃ subs,
    getSubscriptions B fuel w = (Resolved subs, w)
    ∧ StronglySorted
        (λ a b, (localeCompare B (sub_label a) (sub_label b) ≤ 0)%Z) subs
    ∧ subs ≡ₚ concat (map (λ s, map (subscriptionItem s)
                                    (concat (map items (pages s))))
                          (sessions B))
    ∧ ∃ hub locs w',
        getChildren B fuel (Some element) w = (Resolved (Some (hub :: locs)), w')
        ∧ Forall2 (λ sub l, ∃ n, heap w' !! l = Some n
                                 ∧ label n = sub_label sub
                                 ∧ contextValue n = "azureSubscription"
                                 ∧ node_subscription n = Some sub) subs locs.
Proof.
  intros Htotal Htrans Htag Hlogin Hpages.
  eexists. split; [by apply getSubscriptions_resolves|].
  split; [|split].
  - assert (Transitive (byLabel B)) by (intros a b c; apply Htrans).
    assert (Total (byLabel B)) by (intros a b; apply Htotal).
    by apply (StronglySorted_merge_sort (byLabel B)).
  - apply (merge_sort_Permutation (byLabel B)).
  - eexists _, _, _. split.
    + unfold getChildren, getDockerNodes. rewrite Htag. simpl.
      unfold bind at 1. unfold expandRegistries.
      unfold bind at 1. unfold new_DockerNode at 1.
      rewrite Hlogin. simpl. unfold bind at 1, ret at 1.
      unfold bind at 1.
      rewrite (getSubscriptions_resolves _ _ pages) by done.
      unfold bind at 1.
      rewrite (mapM_allocates _ subscriptionObject).
      * reflexivity.
      * apply Forall_forall. intros sub _ w'. apply subscriptionNode_allocates.
    + simpl. eapply Forall2_impl;
        [apply (lookup_allocated subscriptionObject)|].
      intros sub l Hl. eexists. split; [exact Hl|]. done.
Qed.

Lemma subscriptions_sorted_by_label_witness :
  let s := {| environment := "AzureCloud"; userId := "dev@example.org";
              credentials := "dev" |} in
  let sub (n : string) := {| displayName := Some n; subscriptionId := Some n;
                             tenantId := Some "t" |} in
  let page2 := {| items := [sub "dev"]; nextLink := None |} in
  let page1 := {| items := [sub "prod"; sub "lab"]; nextLink := Some "next" |} in
  let B := with_azure (Fulfilled true) [s] (λ _, Fulfilled page1)
                      (λ _ _, Fulfilled page2) offline in
  ∃ subs, getSubscriptions B 2 (constructor false) = (Resolved subs, constructor false)
          ∧ sub_label <$> subs = ["dev"; "lab"; "prod"].
Proof.
  intros s sub page2 page1 B.
  destruct (subscriptions_sorted_by_label B 2
              (categoryNode "Registries" "registriesLabel")
              (λ _, [page1; page2]) (constructor false))
    as (subs & Hrun & _).
  - apply byCodeUnit_total.
  - apply byCodeUnit_trans.
  - reflexivity.
  - reflexivity.
  - repeat constructor. exists page1. split; [reflexivity|]. split.
    + apply (chain_next _ page1 "next" page2 [page2]);
        [reflexivity | reflexivity | reflexivity |].
      apply chain_last. reflexivity.
    + simpl. lia.
  - exists subs. split; [exact Hrun|].
    assert (Hsubs : subs = (default [] (match (getSubscriptions B 2 (constructor false)).1 with
                                        | Resolved l => Some l | _ => None end)))
      by (by rewrite Hrun).
    rewrite Hsubs. reflexivity.
Defined.

(** ** Errors and missing data *)

(** C1, as the claim has it, fails: [getChildren] has no handler of its own,
    and [acquireToken] rejects when the credentials report an error; the
    expansion of a registry node then rejects to the caller. *)
Lemma acquireToken_error_reaches_the_caller :
  let B := with_acquireToken (λ _, inl (Failure "token expired")) offline in
  getChildren B 0 (Some registryNode) (constructor false)
  = (Rejected (Failure "token expired"), constructor false).
Proof. reflexivity. Qed.

(** C1, as the code has it: [getChildren] returns an empty sequence when the
    daemon has no images or no containers to list (null or an empty list)
    and when neither the credential store nor the login gives a Docker Hub
    token; for a tag it does not know it calls nothing and does not reject.
    It does not catch errors: when the listing of images or of containers
    rejects, or when [acquireToken] reports an error for a registry or a
    repository node, [getChildren] rejects with that error. *)
Theorem getChildren_no_data_and_errors (B : Backend) (fuel : nat)
    (element : DockerNode) (w : World) :
  (contextValue element = "imagesLabel" →
     (getImageDescriptors B = Fulfilled None
      ∨ getImageDescriptors B = Fulfilled (Some []) →
      getChildren B fuel (Some element) w = (Resolved (Some []), w))
     ∧ (∀ e, getImageDescriptors B = Failed e →
             getChildren B fuel (Some element) w = (Rejected e, w)))
  ∧ (contextValue element = "containersLabel" →
     (getContainerDescriptors B statusFilter = Fulfilled None
      ∨ getContainerDescriptors B statusFilter = Fulfilled (Some []) →
      getChildren B fuel (Some element) w = (Resolved (Some []), w))
     ∧ (∀ e, getContainerDescriptors B statusFilter = Failed e →
             getChildren B fuel (Some element) w = (Rejected e, w)))
  ∧ (contextValue element = "dockerHubRegistry" →
     _keytar (this w) = false ∨ truthy (keychain w) = false →
     ∀ token, dockerHubLogin B = Fulfilled token → truthy token = false →
       getChildren B fuel (Some element) w = (Resolved (Some []), w))
  ∧ (contextValue element = "azureRegistry"
     ∨ contextValue element = "azureRepository" →
     ∀ sub e, node_subscription element = Some sub →
       context_acquireToken B (session sub) = inl e →
       getChildren B fuel (Some element) w = (Rejected e, w))
  ∧ (contextValue element ∉ ["imagesLabel"; "containersLabel"; "registriesLabel";
                             "dockerHubRegistry"; "dockerHubRegistryImage";
                             "azureSubscription"; "azureRegistry";
                             "azureRepository"] →
     ∃ result, getChildren B fuel (Some element) w = (Resolved result, w)).
Proof.
  unfold getChildren, getDockerNodes.
  split; [|split; [|split; [|split]]].
  - intros ->. simpl. unfold expandImages. split.
    + intros [-> | ->]; reflexivity.
    + intros e ->. reflexivity.
  - intros ->. simpl. unfold expandContainers. split.
    + intros [-> | ->]; reflexivity.
    + intros e ->. reflexivity.
  - intros -> Hstore token Hlogin Htoken. simpl.
    unfold bind at 1. unfold expandDockerHub.
    unfold bind at 1, get at 1. unfold bind at 1.
    assert (Hnone : (if _keytar (this w) then getPassword else ret None) w
                    = (Resolved (if _keytar (this w) then keychain w else None), w))
      by (by destruct (_keytar (this w))).
    rewrite Hnone.
    assert (Hfalsy : truthy (if _keytar (this w) then keychain w else None) = false).
    { destruct Hstore as [-> | Hkey]; [done|].
      by destruct (_keytar (this w)). }
    rewrite Hfalsy. simpl. rewrite Hlogin. unfold bind, await, ret.
    by rewrite Htoken.
  - intros [-> | ->] sub e Hsub Htokens; simpl.
    + unfold expandRegistry. rewrite Hsub. unfold bind at 1, acquireToken.
      by rewrite Htokens.
    + unfold expandRepository. rewrite Hsub. unfold bind at 1, acquireToken.
      by rewrite Htokens.
  - intros Htag. exists None.
    repeat match goal with
           | |- context [String.eqb ?a ?b] =>
               destruct (String.eqb_spec a b) as [Heq|_];
                 [exfalso; apply Htag; rewrite Heq; repeat constructor|]
           end.
    reflexivity.
Qed.

Lemma getChildren_no_data_and_errors_witness :
  getChildren offline 0 (Some (categoryNode "Images" "imagesLabel")) (constructor false)
  = (Resolved (Some []), constructor false)
  ∧ getChildren (with_acquireToken (λ _, inl (Failure "token expired")) offline)
                0 (Some repositoryNode) (constructor false)
    = (Rejected (Failure "token expired"), constructor false).
Proof.
  split.
  - destruct (getChildren_no_data_and_errors offline 0
                (categoryNode "Images" "imagesLabel") (constructor false))
      as (Himages & _).
    destruct (Himages eq_refl) as [Hnone _].
    apply Hnone. left. reflexivity.
  - destruct (getChildren_no_data_and_errors
                (with_acquireToken (λ _, inl (Failure "token expired")) offline) 0
                repositoryNode (constructor false))
      as (_ & _ & _ & Htokens & _).
    apply (Htokens (or_intror eq_refl) devSubscription); reflexivity.
Defined.

(** ** The token exchange of the Azure registry *)

Lemma request_token B r member_ body w :
  http B r = Fulfilled body → bearer r = None →
  request B r (tokenCallback member_) None w
  = (Resolved (leftBy member_ body), set_requests (requests w ++ [r]) w).
Proof.
  intros Hreply Hbearer. unfold request. rewrite Hbearer, Hreply.
  unfold bind, modify, settle, tokenCallback, received, bind, ret, leftBy,
    JSON_parse. simpl.
  destruct (nonEmpty body); [|done]. by destruct (parsed body).
Qed.

Lemma request_refused {A} B r (callback : option Error → option Body → M A)
    unassigned w :
  bearer r = Some None →
  request B r callback unassigned w
  = (callback (Some noAuth) None ;;; throw noAuth) w.
Proof. intros Hbearer. unfold request. by rewrite Hbearer. Qed.

Lemma leftBy_empty member_ body : nonEmpty body = false → leftBy member_ body = None.
Proof. intros Hempty. unfold leftBy. by rewrite Hempty. Qed.

Lemma truthy_tokens tokens :
  {| accessToken := accessToken tokens; refreshToken := refreshToken tokens |}
  = tokens.
Proof. by destruct tokens. Qed.

(** C3: when the second call of the exchange is answered with an empty
    body, the callback leaves the access token undefined, and the third
    call, whose bearer it is, is refused by the client before anything is
    sent.  The expansion allocates and returns no node, sends the first two
    exchanges and no third one, and changes nothing else: it ends by
    rejecting, the registry expansion with the type error of its callback
    (which takes the length of a body that is not there), the repository
    expansion, whose callback returns on an error, with the error of the
    client. *)
Theorem empty_second_body_yields_no_node (B : Backend) (fuel : nat)
    (element : DockerNode) (sub : SubscriptionItem) (tokens : TokenResult)
    (body1 body2 : Body) (w : World) :
  node_subscription element = Some sub →
  context_acquireToken B (session sub) = inr tokens →
  truthy (accessToken tokens) = true → truthy (refreshToken tokens) = true →
  nonEmpty body2 = false →
  (contextValue element = "azureRegistry" →
   let r1 := exchangeRequest (label element) (tenantId (subscription sub)) tokens in
   let r2 := tokenRequest (label element) "registry:catalog:*"
                          (leftBy "refresh_token" body1) in
   http B r1 = Fulfilled body1 → http B r2 = Fulfilled body2 →
   getChildren B fuel (Some element) w
   = (Rejected (TypeError "body.length"),
      set_requests (requests w ++ [r1; r2]) w))
  ∧ (contextValue element = "azureRepository" →
     let server := repo_string (repository element) in
     let r1 := exchangeRequest server (tenantId (subscription sub)) tokens in
     let r2 := tokenRequest server ("repository:" +:+ label element +:+ ":pull")
                            (leftBy "refresh_token" body1) in
     http B r1 = Fulfilled body1 → http B r2 = Fulfilled body2 →
     getChildren B fuel (Some element) w
     = (Rejected noAuth, set_requests (requests w ++ [r1; r2]) w)).
Proof.
  intros Hsub Htokens Haccess Hrefresh Hempty. split.
  - intros Htag r1 r2 Hr1 Hr2. subst r1 r2.
    unfold exchangeRequest, tokenRequest in *.
    unfold getChildren, getDockerNodes. rewrite Htag. simpl. unfold expandRegistry. rewrite Hsub.
    unfold bind at 1, acquireToken. rewrite Htokens, truthy_tokens.
    unfold ret at 1. rewrite Haccess, Hrefresh. simpl.
    unfold bind at 1. rewrite (request_token _ _ _ _ _ Hr1 eq_refl).
    unfold bind at 1. rewrite (request_token _ _ _ _ _ Hr2 eq_refl).
    rewrite (leftBy_empty _ _ Hempty).
    unfold bind at 1. rewrite request_refused by done.
    simpl. by rewrite <- (assoc_L (++)).
  - intros Htag server r1 r2 Hr1 Hr2. subst server r1 r2.
    unfold exchangeRequest, tokenRequest in *.
    unfold getChildren, getDockerNodes. rewrite Htag. simpl. unfold expandRepository. rewrite Hsub.
    unfold bind at 1, acquireToken. rewrite Htokens, truthy_tokens.
    unfold ret at 1. rewrite Haccess, Hrefresh. simpl.
    unfold bind at 1. rewrite (request_token _ _ _ _ _ Hr1 eq_refl).
    unfold bind at 1. rewrite (request_token _ _ _ _ _ Hr2 eq_refl).
    rewrite (leftBy_empty _ _ Hempty).
    unfold bind at 1. rewrite request_refused by done.
    simpl. by rewrite <- (assoc_L (++)).
Qed.

Lemma empty_second_body_yields_no_node_witness :
  let B := with_http secondBodyEmpty (with_acquireToken devTokens offline) in
  let registry := getChildren B 0 (Some registryNode) (constructor false) in
  let repository := getChildren B 0 (Some repositoryNode) (constructor false) in
  (registry.1 = Rejected (TypeError "body.length")
   ∧ heap registry.2 = []
   ∧ url <$> requests registry.2 = ["https://dev.azurecr.io/oauth2/exchange";
                                    "https://dev.azurecr.io/oauth2/token"])
  ∧ (repository.1 = Rejected noAuth
     ∧ heap repository.2 = []
     ∧ url <$> requests repository.2 = ["https://dev.azurecr.io/oauth2/exchange";
                                        "https://dev.azurecr.io/oauth2/token"]).
Proof.
  intros B registry repository.
  destruct (empty_second_body_yields_no_node B 0 registryNode devSubscription
              {| accessToken := Some "aad-access"; refreshToken := Some "aad-refresh" |}
              {| text := "{" +:+ quoted "refresh_token" +:+ ":" +:+
                         quoted "acr-refresh" +:+ "}";
                 parsed := Some [("refresh_token", JString "acr-refresh")] |}
              {| text := ""; parsed := None |} (constructor false))
    as [Hregistry _]; try reflexivity.
  destruct (empty_second_body_yields_no_node B 0 repositoryNode devSubscription
              {| accessToken := Some "aad-access"; refreshToken := Some "aad-refresh" |}
              {| text := "{" +:+ quoted "refresh_token" +:+ ":" +:+
                         quoted "acr-refresh" +:+ "}";
                 parsed := Some [("refresh_token", JString "acr-refresh")] |}
              {| text := ""; parsed := None |} (constructor false))
    as [_ Hrepository]; try reflexivity.
  subst registry repository.
  rewrite (Hregistry eq_refl eq_refl eq_refl).
  rewrite (Hrepository eq_refl eq_refl eq_refl).
  repeat split; reflexivity.
Defined.

(** * Further properties *)

(** ** What a call leaves alone *)

Section Leaves.

Context {X : Type} (part : World → X).

Lemma leaves_ret {A} (a : A) : leaves part (ret a).
Proof. done. Qed.

Lemma leaves_throw {A} e : leaves part (@throw A e).
Proof. done. Qed.

Lemma leaves_get : leaves part get.
Proof. done. Qed.

Lemma leaves_await {A} (p : Promise A) : leaves part (await p).
Proof. by destruct p. Qed.

Lemma leaves_bind {A B} (m : M A) (k : A → M B) :
  leaves part m → (∀ a, leaves part (k a)) → leaves part (bind m k).
Proof.
  intros Hm Hk w. unfold bind. specialize (Hm w).
  destruct (m w) as [[a| e |] w']; simpl in *; try done.
  by rewrite Hk.
Qed.

Lemma leaves_modify (f : World → World) :
  (∀ w, part (f w) = part w) → leaves part (modify f).
Proof. intros Hf w. apply Hf. Qed.

Lemma leaves_mapM {A B} (f : A → M B) l :
  (∀ x, leaves part (f x)) → leaves part (mapM f l).
Proof.
  intros Hf. induction l as [|x l IH]; simpl.
  - apply leaves_ret.
  - apply leaves_bind; [apply Hf|]. intros y.
    apply leaves_bind; [apply IH|]. intros ys. apply leaves_ret.
Qed.

Lemma leaves_listAll_loop {T} fuel listNext (page : PartialList T) all :
  leaves part (listAll_loop fuel listNext page all).
Proof.
  revert page all. induction fuel as [|fuel IH]; intros page all; simpl.
  - destruct (_ || _); [done | apply leaves_ret].
  - destruct (_ || _); [|apply leaves_ret].
    apply leaves_bind; [|intros next; apply IH].
    destruct (nextLink page) as [link|]; [|apply leaves_ret].
    destruct (negb (String.eqb link "")); [apply leaves_await | apply leaves_ret].
Qed.

Lemma leaves_listAll {T} fuel listNext (first : Promise (PartialList T)) :
  leaves part (listAll fuel listNext first).
Proof.
  unfold listAll. apply leaves_bind; [apply leaves_await|].
  intros page. apply leaves_listAll_loop.
Qed.

Lemma leaves_getSubscriptions B fuel : leaves part (getSubscriptions B fuel).
Proof.
  unfold getSubscriptions. apply leaves_bind; [|intros; apply leaves_ret].
  apply leaves_mapM. intros s.
  apply leaves_bind; [apply leaves_listAll | intros; apply leaves_ret].
Qed.

Lemma leaves_acquireToken B s : leaves part (acquireToken B s).
Proof.
  unfold acquireToken.
  destruct (context_acquireToken B s); [apply leaves_throw | apply leaves_ret].
Qed.

Lemma leaves_JSON_parse body : leaves part (JSON_parse body).
Proof.
  unfold JSON_parse. destruct (parsed body); [apply leaves_ret | apply leaves_throw].
Qed.

Lemma leaves_received body : leaves part (received body).
Proof.
  unfold received. destruct body; [apply leaves_ret | apply leaves_throw].
Qed.

Lemma leaves_tokenCallback field err body :
  leaves part (tokenCallback field err body).
Proof.
  unfold tokenCallback. apply leaves_bind; [apply leaves_received|].
  intros body'. destruct (nonEmpty body'); [|apply leaves_ret].
  apply leaves_bind; [apply leaves_JSON_parse | intros; apply leaves_ret].
Qed.

Lemma leaves_settle {A} (callback : M A) unassigned :
  leaves part callback → leaves part (settle callback unassigned).
Proof.
  intros H w. unfold settle. specialize (H w).
  by destruct (callback w) as [[a|e|] w'].
Qed.

Lemma leaves_request {A} B r (callback : option Error → option Body → M A)
    unassigned :
  (∀ w, part (set_requests (requests w ++ [r]) w) = part w) →
  (∀ err body, leaves part (callback err body)) →
  leaves part (request B r callback unassigned).
Proof.
  intros Hr Hcb. unfold request.
  assert (Hsent : leaves part
    (modify (λ w, set_requests (requests w ++ [r]) w) ;;;
     match http B r with
     | Fulfilled body => settle (callback None (Some body)) unassigned
     | Failed e => settle (callback (Some e) None) unassigned ;;; throw e
     end)).
  { apply leaves_bind; [by apply leaves_modify|]. intros _.
    destruct (http B r) as [body|e]; [by apply leaves_settle|].
    apply leaves_bind; [by apply leaves_settle | intros; apply leaves_throw]. }
  destruct (bearer r) as [[token|]|]; try done.
  apply leaves_bind; [apply Hcb | intros; apply leaves_throw].
Qed.

Lemma leaves_entries v : leaves part (entries v).
Proof.
  unfold entries. destruct v as [[s|l]|];
    [apply leaves_ret | apply leaves_ret | apply leaves_throw].
Qed.

End Leaves.

(** One step of a frame proof for [leaves]: as [keeps_step], with the
    updates of the world checked by computation. *)
Ltac leaves_step :=
  match goal with
  | |- leaves _ (bind _ _) => apply leaves_bind; [|intros ?]
  | |- leaves _ (mapM _ _) => apply leaves_mapM; intros ?
  | |- leaves _ (ret _) => apply leaves_ret
  | |- leaves _ (throw _) => apply leaves_throw
  | |- leaves _ get => apply leaves_get
  | |- leaves _ (await _) => apply leaves_await
  | |- leaves _ (getSubscriptions _ _) => apply leaves_getSubscriptions
  | |- leaves _ (acquireToken _ _) => apply leaves_acquireToken
  | |- leaves _ (JSON_parse _) => apply leaves_JSON_parse
  | |- leaves _ (tokenCallback _ _ _) => apply leaves_tokenCallback
  | |- leaves _ (received _) => apply leaves_received
  | |- leaves _ (settle _ _) => apply leaves_settle
  | |- leaves _ (entries _) => apply leaves_entries
  | |- leaves _ (modify _) => apply leaves_modify; intros ?; reflexivity
  | |- leaves _ (new_DockerNode _ _ _ _ _) => intros ?; reflexivity
  | |- leaves _ (assign _ _) => intros ?; reflexivity
  | |- leaves _ (fire _) => intros ?; reflexivity
  | |- leaves _ (setLoginToken _) => intros ?; reflexivity
  | |- leaves _ (setPassword _) => intros ?; reflexivity
  | |- leaves _ getPassword => intros ?; reflexivity
  | |- leaves _ (showWarningMessage _) => intros ?; reflexivity
  | |- leaves _ (request _ _ _ _) => unfold request
  | |- leaves _ (if ?b then _ else _) => destruct b
  | |- leaves _ (match ?x with _ => _ end) => destruct x
  end.

Ltac leaves_all := repeat leaves_step.

Ltac unfold_branches :=
  unfold getChildren, getDockerNodes, topLevel, expandImages, imageNodes,
    expandContainers, containerNode, expandRegistries, expandDockerHub,
    hubRepositories, expandHubImage, expandSubscription, expandRegistry,
    expandRepository.

Lemma leaves_signals_getChildren B fuel element :
  leaves signals (getChildren B fuel element).
Proof. unfold_branches. leaves_all. Qed.

(** X1: no expansion fires the change event, arms or clears a timer, or
    changes [_debounceTimer] or [_keytar], whatever node is expanded and
    however the expansion ends. *)
Theorem getChildren_leaves_signals (B : Backend) (fuel : nat)
    (element : option DockerNode) (w : World) :
  let w' := (getChildren B fuel element w).2 in
  fired w' = fired w ∧ timers w' = timers w ∧ nextTimer w' = nextTimer w
  ∧ _debounceTimer (this w') = _debounceTimer (this w)
  ∧ _keytar (this w') = _keytar (this w).
Proof.
  intros w'. pose proof (leaves_signals_getChildren B fuel element w) as H.
  fold w' in H. unfold signals in H. by injection H.
Qed.

(** X2: an expansion sends requests through the HTTP client of the registry
    exchange, and shows a warning, only for an [azureRegistry] or
    [azureRepository] node: for every other node the log of these requests
    and the warnings are as before.  It changes the stored Docker Hub
    password and the login token of the Docker Hub client only for the
    [dockerHubRegistry] node: for every other node both are as before.
    (What the Docker Hub client and the SDK clients send themselves is not
    part of the world.) *)
Theorem getChildren_traffic_by_tag (B : Backend) (fuel : nat)
    (element : option DockerNode) (w : World) :
  let w' := (getChildren B fuel element w).2 in
  (contextValue <$> element ≠ Some "azureRegistry" →
   contextValue <$> element ≠ Some "azureRepository" →
   requests w' = requests w ∧ warnings w' = warnings w)
  ∧ (contextValue <$> element ≠ Some "dockerHubRegistry" →
     keychain w' = keychain w ∧ loginToken w' = loginToken w).
Proof.
  intros w'. subst w'. split.
  - intros Hregistry Hrepository.
    cut (leaves registryTraffic (getChildren B fuel element)).
    { intros H. specialize (H w). unfold registryTraffic in H. by injection H. }
    destruct element as [element|]; simpl in *.
    + unfold getChildren, getDockerNodes.
      destruct (String.eqb_spec (contextValue element) "azureRegistry")
        as [Heq|_]; [by rewrite Heq in Hregistry|].
      destruct (String.eqb_spec (contextValue element) "azureRepository")
        as [Heq|_]; [by rewrite Heq in Hrepository|].
      unfold_branches. leaves_all.
    + unfold_branches. leaves_all.
  - intros Hhub.
    cut (leaves hubCredentials (getChildren B fuel element)).
    { intros H. specialize (H w). unfold hubCredentials in H. by injection H. }
    destruct element as [element|]; simpl in *.
    + unfold getChildren, getDockerNodes.
      destruct (String.eqb_spec (contextValue element) "dockerHubRegistry")
        as [Heq|_]; [by rewrite Heq in Hhub|].
      unfold_branches. leaves_all.
    + unfold_branches. leaves_all.
Qed.

Lemma getChildren_traffic_by_tag_witness :
  let B := with_images (Fulfilled (Some [ {| Id := "sha256:1";
                                             RepoTags := Some ["nginx:latest"] |} ]))
                       offline in
  let w' := (getChildren B 0 (Some (categoryNode "Images" "imagesLabel"))
                         (constructor true)).2 in
  (requests w' = [] ∧ warnings w' = []) ∧ (keychain w' = None ∧ loginToken w' = None).
Proof.
  intros B w'.
  destruct (getChildren_traffic_by_tag B 0
              (Some (categoryNode "Images" "imagesLabel")) (constructor true))
    as [Htraffic Hhub].
  split; [apply Htraffic | apply Hhub]; discriminate.
Defined.

(** ** What an expansion does to the heap *)

Lemma mapM_cons_eq {A B} (f : A → M B) x xs w :
  mapM f (x :: xs) w
  = match f x w with
    | (Resolved y, w') =>
        match mapM f xs w' with
        | (Resolved ys, w'') => (Resolved (y :: ys), w'')
        | (Rejected e, w'') => (Rejected e, w'')
        | (OutOfFuel, w'') => (OutOfFuel, w'')
        end
    | (Rejected e, w') => (Rejected e, w')
    | (OutOfFuel, w') => (OutOfFuel, w')
    end.
Proof.
  simpl. unfold bind. by destruct (f x w) as [[y|e|] w'].
Qed.

Section Allocating.

Context (P : DockerNode → Prop).

Lemma allocates1_throw e : allocates1 P (throw e).
Proof. intros w. left. by split. Qed.

Lemma allocates1_await {A} (p : Promise A) (k : A → M loc) :
  (∀ a, allocates1 P (k a)) → allocates1 P (bind (await p) k).
Proof.
  intros Hk w. destruct p as [a|e]; [apply Hk|]. left. by split.
Qed.

Lemma allocates1_equation (m : M loc) :
  (∀ w, ∃ n, m w = (Resolved (length (heap w)), set_heap (heap w ++ [n]) w)
             ∧ P n) →
  allocates1 P m.
Proof. intros Hm w. destruct (Hm w) as (n & -> & Hn). right. by exists n. Qed.

Lemma allocates_ret_nil : allocates P (ret []).
Proof.
  intros w. exists []. split; [done|]. split; [by rewrite app_nil_r|].
  by intros ? [= <-].
Qed.

Lemma allocates_throw e : allocates P (throw e).
Proof.
  intros w. exists []. split; [done|]. split; [by rewrite app_nil_r|]. done.
Qed.

Lemma allocates_bind {A} (m : M A) (k : A → M (list loc)) :
  leaves heap m → (∀ a, allocates P (k a)) → allocates P (bind m k).
Proof.
  intros Hm Hk w. unfold bind. specialize (Hm w).
  destruct (m w) as [[a|e|] w']; simpl in Hm.
  - rewrite <- Hm. apply Hk.
  - exists []. by rewrite app_nil_r.
  - exists []. by rewrite app_nil_r.
Qed.

Lemma allocates_mapM {A} (f : A → M loc) xs :
  (∀ x, allocates1 P (f x)) → allocates P (mapM f xs).
Proof.
  intros Hf. induction xs as [|x xs IH]; [apply allocates_ret_nil|].
  intros w. rewrite mapM_cons_eq.
  destruct (Hf x w) as [[Hheap Hfail] | (n & Hn & Hheap & Hres)].
  - exists []. rewrite app_nil_r. split; [done|].
    destruct (f x w) as [[l|e|] w']; simpl in *.
    + by destruct (Hfail l).
    + by split.
    + by split.
  - destruct (f x w) as [o w']; simpl in *. subst o.
    destruct (IH w') as (new & HP & Hnew & Hlocs).
    exists (n :: new). split; [by constructor|].
    rewrite Hheap, <- (assoc_L (++)) in Hnew.
    destruct (mapM f xs w') as [[ys|e|] w'']; simpl in *; split; try done.
    intros locs [= <-]. rewrite (Hlocs ys eq_refl), Hheap, length_app.
    simpl. by rewrite Nat.add_1_r.
Qed.

Lemma allocatesAfter_ret before : allocatesAfter P before (ret before).
Proof.
  intros w. exists []. split; [done|]. split; [by rewrite app_nil_r|].
  intros ? [= <-]. by rewrite app_nil_r.
Qed.

Lemma allocatesAfter_bind {A} before (m : M A) (k : A → M (list loc)) :
  leaves heap m → (∀ a, allocatesAfter P before (k a)) →
  allocatesAfter P before (bind m k).
Proof.
  intros Hm Hk w. unfold bind. specialize (Hm w).
  destruct (m w) as [[a|e|] w']; simpl in Hm.
  - rewrite <- Hm. apply Hk.
  - exists []. by rewrite app_nil_r.
  - exists []. by rewrite app_nil_r.
Qed.

Lemma allocatesAfter_push before (m : M (list loc)) :
  allocates P m → allocatesAfter P before (bind m (λ locs, ret (before ++ locs))).
Proof.
  intros Hm w. unfold bind. destruct (Hm w) as (new & HP & Hheap & Hlocs).
  exists new. split; [done|].
  destruct (m w) as [[locs|e|] w']; simpl in *; split; try done.
  intros ? [= <-]. by rewrite (Hlocs locs eq_refl).
Qed.

(** [new DockerNode] first, then a computation that returns the new
    reference before its own. *)
Lemma allocates_new lbl cs ctx cmd icon (k : loc → M (list loc)) :
  P {| label := lbl; collapsibleState := cs; contextValue := ctx;
       command := cmd; iconPath := default mono_moby_small icon;
       containerDesc := None; imageDesc := None;
       repository := RepoEmpty; node_subscription := None;
       refreshTokenARC := None; accessTokenARC := None |} →
  (∀ l, allocatesAfter P [l] (k l)) →
  allocates P (bind (new_DockerNode lbl cs ctx cmd icon) k).
Proof.
  intros Hnode Hk w. unfold bind, new_DockerNode.
  destruct (Hk (length (heap w))
              (set_heap (heap w ++ [ {| label := lbl; collapsibleState := cs;
                 contextValue := ctx; command := cmd;
                 iconPath := default mono_moby_small icon;
                 containerDesc := None; imageDesc := None;
                 repository := RepoEmpty; node_subscription := None;
                 refreshTokenARC := None; accessTokenARC := None |} ]) w))
    as (new & HP & Hheap & Hlocs).
  simpl in Hheap, Hlocs. eexists (_ :: new). split; [by constructor|].
  rewrite <- (assoc_L (++)) in Hheap. split; [exact Hheap|].
  intros locs Hres. rewrite (Hlocs locs Hres), length_app. simpl.
  by rewrite Nat.add_1_r.
Qed.

Lemma allocatesResult_some (m : M (list loc)) :
  allocates P m → allocatesResult P (bind m (λ nodes, ret (Some nodes))).
Proof.
  intros Hm w. unfold bind. destruct (Hm w) as (new & HP & Hheap & Hlocs).
  exists new. split; [done|].
  destruct (m w) as [[locs|e|] w']; simpl in *; split; try done.
  intros ? [= <-]. by apply Hlocs.
Qed.

Lemma allocatesResult_none : allocatesResult P (ret None).
Proof.
  intros w. exists []. split; [done|]. split; [by rewrite app_nil_r|].
  by intros ? [= <-].
Qed.

Lemma allocatesResult_throw e : allocatesResult P (throw e).
Proof.
  intros w. exists []. split; [done|]. split; [by rewrite app_nil_r|]. done.
Qed.

Lemma allocatesResult_bind {A} (m : M A) (k : A → M (option (list loc))) :
  leaves heap m → (∀ a, allocatesResult P (k a)) → allocatesResult P (bind m k).
Proof.
  intros Hm Hk w. unfold bind. specialize (Hm w).
  destruct (m w) as [[a|e|] w']; simpl in Hm.
  - rewrite <- Hm. apply Hk.
  - exists []. by rewrite app_nil_r.
  - exists []. by rewrite app_nil_r.
Qed.

Lemma allocates_request B r (callback : option Error → option Body → M (list loc)) :
  (∀ body, allocates P (settle (callback None (Some body)) [])) →
  (∀ e, leaves heap (callback (Some e) None)) →
  allocates P (request B r callback []).
Proof.
  intros Hanswered Hfailed. unfold request.
  assert (Hnothing : ∀ (m : M (list loc)) e, leaves heap m →
                     allocates P (m ;;; throw e)).
  { intros m e Hm w. exists []. split; [done|]. rewrite app_nil_r.
    unfold bind. specialize (Hm w).
    by destruct (m w) as [[a|e'|] w']. }
  assert (Hsent : allocates P
    (modify (λ w, set_requests (requests w ++ [r]) w) ;;;
     match http B r with
     | Fulfilled body => settle (callback None (Some body)) []
     | Failed e => settle (callback (Some e) None) [] ;;; throw e
     end)).
  { apply allocates_bind; [by apply leaves_modify|]. intros _.
    destruct (http B r) as [body|e]; [apply Hanswered|].
    apply Hnothing. by apply leaves_settle. }
  destruct (bearer r) as [[token|]|]; try done.
  by apply Hnothing.
Qed.

(** The callback of a listing: it takes the body, reads a member of the
    reply and allocates one object per entry; it can only fail before it
    allocates. *)
Lemma allocates_listing (mk : string → DockerNode) (body : string → M loc)
    (member_ : string) (empty : M (list loc)) (reply : option Body) :
  (∀ x, P (mk x)) →
  (∀ x w, body x w = (Resolved (length (heap w)), set_heap (heap w ++ [mk x]) w)) →
  (∀ w, (empty w).1 = Resolved [] ∧ heap (empty w).2 = heap w) →
  allocates P
    (settle (reply <- received reply ;;
             if nonEmpty reply then
               doc <- JSON_parse reply ;;
               xs <- entries (member member_ doc) ;;
               mapM body xs
             else empty) []).
Proof.
  intros Hmk Hbody Hempty w.
  assert (Hnone : ∀ w' : World, heap w' = heap w →
    ∃ new, Forall P new ∧ heap w' = heap w ++ new
           ∧ ∀ locs, Resolved [] = Resolved locs →
                     locs = seq (length (heap w)) (length new)).
  { intros w' Hw'. exists []. split; [done|]. rewrite app_nil_r.
    split; [done|]. by intros ? [= <-]. }
  unfold settle, bind, received.
  destruct reply as [reply|]; simpl; [|by apply Hnone].
  destruct (nonEmpty reply).
  - unfold JSON_parse. destruct (parsed reply) as [doc|]; simpl; [|by apply Hnone].
    unfold entries.
    assert (Hloop : ∀ xs,
      ∃ new, Forall P new
             ∧ heap (match mapM body xs w with
                     | (Rejected _, w') => (Resolved [], w')
                     | other => other
                     end).2 = heap w ++ new
             ∧ ∀ locs, (match mapM body xs w with
                        | (Rejected _, w') => (Resolved [], w')
                        | other => other
                        end).1 = Resolved locs →
                       locs = seq (length (heap w)) (length new)).
    { intros xs. rewrite (mapM_allocates body mk xs)
        by (apply Forall_forall; intros x _; apply Hbody).
      exists (map mk xs). simpl. split; [apply Forall_fmap, Forall_forall; intros x _; apply Hmk|].
      split; [done|]. intros locs [= <-]. by rewrite length_map. }
    destruct (member member_ doc) as [[s|l]|]; simpl;
      [apply Hloop | apply Hloop | by apply Hnone].
  - destruct (Hempty w) as [Hres Hheap].
    destruct (empty w) as [o w']; simpl in *. subst o.
    by apply Hnone.
Qed.

End Allocating.

(** The bodies of the loops: [new DockerNode], then assignments to the new
    object; the object is well tagged by computation. *)
Ltac new_object :=
  apply allocates1_equation; intros ?; eexists;
  (split;
   [unfold bind, new_DockerNode, assign, modify, ret; simpl;
    rewrite ?alter_last; reflexivity
   | try reflexivity]).

Lemma concat_chunks {A} (size : A → nat) start xs :
  concat (chunks size start xs) = seq start (sum_list (map size xs)).
Proof.
  revert start. induction xs as [|x xs IH]; intros start; [done|].
  simpl. by rewrite IH, seq_app.
Qed.

Lemma length_concat_map {A B} (f : A → list B) xs :
  length (concat (map f xs)) = sum_list (map (λ x, length (f x)) xs).
Proof.
  induction xs as [|x xs IH]; [done|]. simpl. by rewrite length_app, IH.
Qed.

Lemma wellTagged_imageObjects image :
  Forall tagged (imageObjects image).
Proof.
  unfold imageObjects. destruct (RepoTags image) as [tags|].
  - apply Forall_forall. intros n Hn.
    apply list_elem_of_fmap in Hn as (tag & -> & _). reflexivity.
  - by repeat constructor.
Qed.

Section Allocation.

Context (B : Backend).

Lemma allocates_expandImages : allocates tagged (expandImages B).
Proof.
  intros w. destruct (getImageDescriptors B) as [[images|]|e] eqn:Hdaemon.
  - rewrite (expandImages_some _ _ _ Hdaemon). simpl.
    eexists. split; [|split; [reflexivity|]].
    + apply Forall_concat, Forall_fmap, Forall_forall.
      intros image _. apply wellTagged_imageObjects.
    + intros locs [= <-]. rewrite concat_chunks.
      by rewrite <- length_concat_map.
  - exists []. unfold expandImages. rewrite Hdaemon, app_nil_r.
    split; [done|]. split; [done|]. by intros ? [= <-].
  - exists []. unfold expandImages. rewrite Hdaemon, app_nil_r.
    by repeat split.
Qed.

Lemma allocates1_containerNode c : allocates1 tagged (containerNode c).
Proof.
  unfold containerNode. destruct (Names c !! 0) as [first|];
    [|apply allocates1_throw].
  new_object. simpl. by destruct (stopped (State c)).
Qed.

Lemma allocates_expandContainers : allocates tagged (expandContainers B).
Proof.
  unfold expandContainers. apply allocates_bind; [apply leaves_await|].
  intros [[|c cs]|]; try apply allocates_ret_nil.
  apply allocates_mapM, allocates1_containerNode.
Qed.

Lemma allocates_expandRegistries fuel : allocates tagged (expandRegistries B fuel).
Proof.
  unfold expandRegistries. apply allocates_new; [done|]. intros hub.
  apply allocatesAfter_bind; [apply leaves_await|]. intros [|].
  - apply allocatesAfter_bind; [apply leaves_getSubscriptions|]. intros subs.
    apply (allocatesAfter_push _ [hub]).
    apply allocates_mapM. intros sub. new_object.
  - apply allocatesAfter_ret.
Qed.

Lemma allocates_hubRepositories : allocates tagged (hubRepositories B).
Proof.
  unfold hubRepositories. apply allocates_bind; [apply leaves_await|].
  intros [user|]; [|apply allocates_throw].
  apply allocates_bind; [apply leaves_await|]. intros myRepos.
  apply allocates_mapM. intros r.
  apply allocates1_await. intros myRepo. new_object.
Qed.

Lemma allocates_expandDockerHub : allocates tagged (expandDockerHub B).
Proof.
  unfold expandDockerHub. apply allocates_bind; [apply leaves_get|]. intros w.
  apply allocates_bind; [leaves_all|]. intros token.
  destruct (negb (truthy token)).
  - apply allocates_bind; [apply leaves_await|]. intros token'.
    destruct (truthy token'); [|apply allocates_ret_nil].
    apply allocates_bind; [leaves_all|]. intros _.
    apply allocates_bind; [leaves_all|]. intros _.
    apply allocates_hubRepositories.
  - apply allocates_bind; [leaves_all|]. intros _.
    apply allocates_hubRepositories.
Qed.

Lemma allocates_expandHubImage element :
  allocates tagged (expandHubImage B element).
Proof.
  unfold expandHubImage. apply allocates_bind; [apply leaves_await|].
  intros myTags. apply allocates_mapM. intros tag.
  apply allocates1_equation. intros w. eexists. split; reflexivity.
Qed.

Lemma allocates_expandSubscription element :
  allocates tagged (expandSubscription B element).
Proof.
  unfold expandSubscription.
  destruct (node_subscription element) as [sub|]; [|apply allocates_throw].
  apply allocates_bind; [apply leaves_await|]. intros registries.
  apply allocates_mapM. intros reg. new_object.
Qed.

Lemma allocatesResult_expandRegistry element :
  allocatesResult tagged (expandRegistry B element).
Proof.
  unfold expandRegistry.
  destruct (node_subscription element) as [sub|]; [|apply allocatesResult_throw].
  apply allocatesResult_bind; [apply leaves_acquireToken|]. intros tokens.
  destruct (_ && _); [|apply allocatesResult_none].
  apply allocatesResult_bind;
    [apply leaves_request; [done | intros; apply leaves_tokenCallback]|].
  intros rt.
  apply allocatesResult_bind;
    [apply leaves_request; [done | intros; apply leaves_tokenCallback]|].
  intros at_.
  apply allocatesResult_some, allocates_request; [|by intros e w].
  intros body.
  apply (allocates_listing _
           (azureRepositoryObject
              (with_subscription (Some sub) element) rt at_)).
  - done.
  - intros repo w. unfold bind, new_DockerNode, assign, modify, ret. simpl.
    by rewrite !alter_last.
  - done.
Qed.

Lemma allocatesResult_expandRepository element :
  allocatesResult tagged (expandRepository B element).
Proof.
  unfold expandRepository.
  destruct (node_subscription element) as [sub|]; [|apply allocatesResult_throw].
  apply allocatesResult_bind; [apply leaves_acquireToken|]. intros tokens.
  destruct (_ && _); [|apply allocatesResult_none].
  apply allocatesResult_bind;
    [apply leaves_request; [done | intros; apply leaves_tokenCallback]|].
  intros rt.
  apply allocatesResult_bind;
    [apply leaves_request; [done | intros; apply leaves_tokenCallback]|].
  intros at_.
  apply allocatesResult_some, allocates_request; [|by intros e w].
  intros body.
  apply (allocates_listing _
           (azureTagObject (with_subscription (Some sub) element) at_)).
  - done.
  - intros tag w. unfold bind, new_DockerNode, assign, modify, ret. simpl.
    by rewrite !alter_last.
  - done.
Qed.

Lemma allocates_topLevel : allocates tagged topLevel.
Proof.
  intros w. unfold topLevel, bind, new_DockerNode, modify, ret. simpl.
  eexists [_; _; _]. rewrite <- !(assoc_L (++)). simpl.
  split; [|split]; cycle 1.
  - reflexivity.
  - intros locs Heq. inversion Heq as [Heq'].
    rewrite !length_app. simpl. repeat f_equal; lia.
  - by repeat constructor.
Qed.

Lemma allocatesResult_getDockerNodes fuel element :
  allocatesResult tagged (getDockerNodes B fuel element).
Proof.
  unfold getDockerNodes. destruct element as [element|];
    [|apply allocatesResult_some, allocates_topLevel].
  repeat match goal with
         | |- allocatesResult _ (if ?b then _ else _) => destruct b
         end;
    auto using allocatesResult_some, allocates_expandImages,
      allocates_expandContainers, allocates_expandRegistries,
      allocates_expandDockerHub, allocates_expandHubImage,
      allocates_expandSubscription, allocatesResult_expandRegistry,
      allocatesResult_expandRepository, allocatesResult_none.
Qed.

End Allocation.

(** X3: whatever node is expanded and however the expansion ends, the heap
    after it is the heap before it followed by the objects it allocated: no
    existing node object is changed or dropped.  When the expansion returns
    a sequence, that sequence is the references of exactly these new
    objects, in the order of their allocation (so they are distinct, valid
    and none of them existed before); when it ends without a value, it has
    allocated nothing. *)
Theorem getChildren_only_adds_objects (B : Backend) (fuel : nat)
    (element : option DockerNode) (w : World) :
  ∃ new,
    heap (getChildren B fuel element w).2 = heap w ++ new
    ∧ ∀ result, (getChildren B fuel element w).1 = Resolved result →
        match result with
        | Some locs => locs = seq (length (heap w)) (length new)
        | None => new = []
        end.
Proof.
  destruct (allocatesResult_getDockerNodes B fuel element w)
    as (new & _ & Hheap & Hresult).
  by exists new.
Qed.

(** ** Timers and signals over the life of the provider *)

Lemma expire_nothing_pending id w :
  timers w = [] → expire id w = (Resolved tt, w).
Proof.
  intros Hnone. unfold expire, bind, get. rewrite Hnone.
  by rewrite decide_False by (by intros ?%elem_of_nil).
Qed.

Lemma call_never_arms B c w :
  hostCall c = true →
  timers w = [] ∧ _debounceTimer (this w) = None →
  timers (call B c w) = [] ∧ _debounceTimer (this (call B c w)) = None.
Proof.
  intros Hhost [Htimers Hdebounce].
  destruct c as [| | | | | id | fuel element]; simpl; try done.
  - by rewrite expire_nothing_pending.
  - pose proof (leaves_signals_getChildren B fuel element w) as H.
    unfold signals in H. injection H as _ Ht _ Hd _. by rewrite Ht, Hd.
Qed.

(** X4: nothing the host or the event loop can do arms the auto-refresh
    timer: [setAutoRefresh] is private and no method of the file calls it.
    After any sequence of the other calls on a new provider no timer is
    pending, [_debounceTimer] is undefined, and an expiry fires nothing. *)
Theorem auto_refresh_is_never_armed (keytar_found : bool)
    (calls : list (Backend * Call)) :
  Forall (λ bc : Backend * Call, hostCall bc.2 = true) calls →
  let w := run calls (constructor keytar_found) in
  timers w = [] ∧ _debounceTimer (this w) = None
  ∧ ∀ id, expire id w = (Resolved tt, w).
Proof.
  intros Hcalls w.
  assert (Hinv : timers w = [] ∧ _debounceTimer (this w) = None).
  { subst w.
    assert (Hinit : timers (constructor keytar_found) = []
                    ∧ _debounceTimer (this (constructor keytar_found)) = None)
      by done.
    revert Hinit. generalize (constructor keytar_found).
    induction Hcalls as [|[B c] calls Hc _ IH]; intros w0 Hinit; [done|].
    change (run ((B, c) :: calls) w0) with (run calls (call B c w0)).
    apply IH. by apply call_never_arms. }
  destruct Hinv as [Htimers Hdebounce]. repeat split; try done.
  intros id. by apply expire_nothing_pending.
Qed.

Lemma auto_refresh_is_never_armed_witness :
  let calls := [(offline, CallGetChildren 0 None);
                (offline, CallRefresh);
                (offline, CallGetChildren 0 (Some (categoryNode "Images" "imagesLabel")));
                (offline, CallExpire 0)] in
  timers (run calls (constructor false)) = [].
Proof.
  intros calls.
  apply (auto_refresh_is_never_armed false calls).
  repeat constructor.
Defined.

(** X5: [refresh] fires the change event three times, for the images, the
    containers and the registries node of the latest top-level expansion, in
    that order, whatever was expanded or refreshed since; it changes nothing
    else. *)
Theorem refresh_announces_latest_category_nodes (B : Backend) (fuel : nat)
    (w : World) (calls : list (Backend * Call)) :
  Forall (λ bc : Backend * Call, topLevelCall bc.2 = false) calls →
  let l := length (heap w) in
  let w' := run calls (getChildren B fuel None w).2 in
  (getChildren B fuel None w).1 = Resolved (Some [l; S l; S (S l)])
  ∧ refresh w'
    = (Resolved tt, set_fired (fired w' ++ [Some l; Some (S l); Some (S (S l))]) w').
Proof.
  intros Hcalls l w'. split.
  - unfold getChildren, getDockerNodes, topLevel, bind, new_DockerNode, modify,
      ret. simpl. rewrite !length_app. simpl. subst l.
    repeat f_equal; lia.
  - pose proof (run_keeps calls (getChildren B fuel None w).2 Hcalls) as Hkeep.
    fold w' in Hkeep.
    assert (Htop : categoryNodes (getChildren B fuel None w).2
                   = (Some l, Some (S l), Some (S (S l)))).
    { unfold getChildren, getDockerNodes, topLevel, bind, new_DockerNode,
        modify, ret, categoryNodes. simpl. rewrite !length_app. simpl.
      subst l. repeat f_equal; lia. }
    rewrite Htop in Hkeep. unfold categoryNodes in Hkeep.
    injection Hkeep as Hi Hc Hr.
    unfold refresh, refreshImages, refreshContainers, refreshRegistries, bind,
      get, fire, modify. simpl. rewrite Hi, Hc, Hr.
    by rewrite <- !(assoc_L (++)).
Qed.

Lemma refresh_announces_latest_category_nodes_witness :
  let calls := [(offline, CallRefreshImages);
                (offline, CallGetChildren 0 (Some (categoryNode "Images" "imagesLabel")))] in
  fired (refresh (run calls (getChildren offline 0 None (constructor false)).2)).2
  = [Some 0; Some 0; Some 1; Some 2].
Proof.
  intros calls.
  destruct (refresh_announces_latest_category_nodes offline 0 (constructor false) calls)
    as [_ Hrefresh].
  - repeat constructor.
  - rewrite Hrefresh. reflexivity.
Defined.

Lemma setAutoRefresh_armed B keytar_found n :
  (0 < default 1000 (explorerRefreshInterval B))%Z →
  let w := Nat.iter (S n) (λ w, (setAutoRefresh B w).2) (constructor keytar_found) in
  timers w = [(n, default 1000%Z (explorerRefreshInterval B))]
  ∧ nextTimer w = S n ∧ _debounceTimer (this w) = Some n.
Proof.
  intros Hpos.
  assert (Hstep : ∀ w, timers w = [] ∧ _debounceTimer (this w) = None
                        ∨ (∃ d, timers w = [(nextTimer w - 1, d)]
                                ∧ _debounceTimer (this w) = Some (nextTimer w - 1)) →
    let w' := (setAutoRefresh B w).2 in
    timers w' = [(nextTimer w, default 1000%Z (explorerRefreshInterval B))]
    ∧ nextTimer w' = S (nextTimer w)
    ∧ _debounceTimer (this w') = Some (nextTimer w)).
  { intros w Hw. unfold setAutoRefresh.
    rewrite decide_True by lia.
    unfold bind, get, clearTimeout, setTimeout, modify. simpl.
    destruct Hw as [[Ht Hd] | (d & Ht & Hd)]; rewrite Hd; simpl; rewrite Ht.
    - done.
    - by rewrite filter_cons_False by (intros H; by apply H). }
  induction n as [|n IH].
  - simpl. apply (Hstep (constructor keytar_found)). by left.
  - destruct IH as (Ht & Hn & Hd).
    set (wn := Nat.iter (S n) (λ w, (setAutoRefresh B w).2)
                        (constructor keytar_found)) in *.
    change (Nat.iter (S (S n)) (λ w, (setAutoRefresh B w).2)
                     (constructor keytar_found))
      with ((setAutoRefresh B wn).2).
    rewrite <- Hn. apply Hstep. right. rewrite Hn. simpl.
    rewrite Nat.sub_0_r. eauto.
Qed.

(** X6: once [setAutoRefresh] has run (with a positive interval), only the
    timer of its last run is pending.  The timers of earlier runs fire
    nothing when their time comes, and the pending timer fires once: a
    second expiry finds nothing. *)
Theorem superseded_timers_never_fire (B : Backend) (keytar_found : bool) (n : nat) :
  (0 < default 1000 (explorerRefreshInterval B))%Z →
  let w := Nat.iter (S n) (λ w, (setAutoRefresh B w).2) (constructor keytar_found) in
  (∀ id, id ≠ n → expire id w = (Resolved tt, w))
  ∧ timers (expire n w).2 = []
  ∧ fired (expire n w).2 = fired w ++ [_imagesNode (this w); _containersNode (this w)]
  ∧ expire n (expire n w).2 = (Resolved tt, (expire n w).2).
Proof.
  intros Hpos w.
  destruct (setAutoRefresh_armed B keytar_found n Hpos) as (Ht & Hn & Hd).
  fold w in Ht, Hn, Hd.
  assert (Hfire : expire n w
    = (Resolved tt,
       set_fired (fired w ++ [_imagesNode (this w); _containersNode (this w)])
                 (set_timers [] (nextTimer w) w))).
  { unfold expire, bind, get. rewrite Ht.
    rewrite decide_True by (simpl; constructor).
    unfold timeoutCallback, refreshImages, refreshContainers, bind, get, fire,
      modify. simpl. rewrite Ht.
    rewrite filter_cons_False by (intros H; by apply H).
    by rewrite <- (assoc_L (++)). }
  repeat split.
  - intros id Hid. unfold expire, bind, get. rewrite Ht.
    rewrite decide_False; [done|]. simpl.
    intros Hin. apply list_elem_of_singleton in Hin. done.
  - by rewrite Hfire.
  - by rewrite Hfire.
  - rewrite Hfire. simpl. by apply expire_nothing_pending.
Qed.

Lemma superseded_timers_never_fire_witness :
  let B := with_interval (Some 250%Z) offline in
  let w := Nat.iter 3 (λ w, (setAutoRefresh B w).2) (constructor false) in
  expire 0 w = (Resolved tt, w) ∧ timers (expire 2 w).2 = [].
Proof.
  intros B w.
  destruct (superseded_timers_never_fire B false 2) as (Hold & Hnone & _).
  - reflexivity.
  - split; [apply Hold; discriminate | exact Hnone].
Defined.

(** ** Listings that fail or are not asked for *)

Lemma listAll_loop_breaks {T} listNext (page : PartialList T) n e :
  breaks listNext page n e →
  ∀ fuel all w, n ≤ fuel →
    listAll_loop fuel listNext page all w = (Rejected e, w).
Proof.
  induction 1 as [page link e Hlink Htruthy Hfail
                 | page link next n e Hlink Htruthy Hnext _ IH];
    intros fuel all w Hfuel; (destruct fuel as [|fuel]; [lia|]); simpl;
    rewrite Hlink, Htruthy, orb_true_r; simpl;
    simpl in Htruthy; rewrite Htruthy.
  - by rewrite Hfail.
  - rewrite Hnext. unfold bind at 1. simpl. apply IH. lia.
Qed.

(** X7: [listAll] is all or nothing: when the listing of a page fails, after
    any number of pages that were listed, [listAll] rejects with the error
    of that listing and returns none of the items it had gathered. *)
Theorem listAll_rejects_when_a_page_fails {T}
    (listNext : string → Promise (PartialList T)) (first : PartialList T)
    (n : nat) (e : Error) (fuel : nat) (w : World) :
  breaks listNext first n e →
  n ≤ fuel →
  listAll fuel listNext (Fulfilled first) w = (Rejected e, w).
Proof.
  intros Hbreaks Hfuel. unfold listAll. simpl. unfold bind at 1, ret at 1.
  by apply (listAll_loop_breaks _ _ _ _ Hbreaks).
Qed.

Lemma listAll_rejects_when_a_page_fails_witness :
  let page2 := {| items := [3; 4]; nextLink := Some "page3" |} in
  let page1 := {| items := [1; 2]; nextLink := Some "page2" |} in
  let listNext := λ link, if String.eqb link "page2" then Fulfilled page2
                          else Failed (Failure "503") in
  listAll 5 listNext (Fulfilled page1) (constructor false)
  = (Rejected (Failure "503"), constructor false).
Proof.
  intros page2 page1 listNext.
  apply (listAll_rejects_when_a_page_fails listNext page1 2).
  - apply (breaks_later listNext page1 "page2" page2 1);
      [reflexivity | reflexivity | reflexivity |].
    apply (breaks_here listNext page2 "page3"); reflexivity.
  - lia.
Defined.

Lemma mapM_rejects {A B} (f : A → M B) (g : A → B) before x after e w :
  Forall (λ x, ∀ w, f x w = (Resolved (g x), w)) before →
  f x w = (Rejected e, w) →
  mapM f (before ++ x :: after) w = (Rejected e, w).
Proof.
  intros Hbefore Hx. induction Hbefore as [|y before Hy _ IH]; simpl.
  - unfold bind at 1. by rewrite Hx.
  - unfold bind at 1. rewrite Hy. unfold bind at 1. by rewrite IH.
Qed.

(** X8: the subscriptions of the sessions are listed session after session,
    and one failure loses them all: when the listing of a session fails -
    its first page, or a later page - after sessions whose pages could be
    listed, [getSubscriptions] rejects with that error, and the registries
    expansion rejects with it after it has allocated the Docker Hub node. *)
Theorem getSubscriptions_rejects_with_a_session (B : Backend) (fuel : nat)
    (element : DockerNode)
    (pages : AzureSession → list (PartialList Subscription))
    (before after : list AzureSession) (s : AzureSession) (e : Error) (w : World) :
  sessions B = before ++ s :: after →
  Forall (λ s, ∃ first,
            subscriptions_list B s = Fulfilled first
            ∧ chain (subscriptions_listNext B s) first (pages s)
            ∧ length (pages s) ≤ fuel) before →
  (subscriptions_list B s = Failed e
   ∨ ∃ first n, subscriptions_list B s = Fulfilled first
                ∧ breaks (subscriptions_listNext B s) first n e ∧ n ≤ fuel) →
  contextValue element = "registriesLabel" →
  waitForLogin B = Fulfilled true →
  getSubscriptions B fuel w = (Rejected e, w)
  ∧ getChildren B fuel (Some element) w
    = (Rejected e,
       set_heap (heap w ++ [categoryNode "Docker Hub" "dockerHubRegistry"]) w).
Proof.
  intros Hsessions Hbefore Hfails Htag Hlogin.
  assert (Hsubs : ∀ w, getSubscriptions B fuel w = (Rejected e, w)).
  { clear w. intros w. unfold getSubscriptions. unfold bind at 1.
    rewrite Hsessions.
    rewrite (mapM_rejects _
      (λ s, map (subscriptionItem s) (concat (map items (pages s)))) _ _ _ e).
    - done.
    - eapply Forall_impl; [exact Hbefore|]. simpl.
      intros s' (first & Hfirst & Hchain & Hfuel) w'.
      rewrite Hfirst. unfold listAll. simpl. unfold bind, ret.
      by rewrite (listAll_loop_chain _ _ _ Hchain).
    - destruct Hfails as [Hfirst | (first & n & Hfirst & Hbreaks & Hfuel)];
        rewrite Hfirst; [done|].
      unfold listAll. simpl. unfold bind, ret.
      by rewrite (listAll_loop_breaks _ _ _ _ Hbreaks). }
  split; [apply Hsubs|].
  unfold getChildren, getDockerNodes. rewrite Htag. simpl.
  unfold bind at 1. unfold expandRegistries.
  unfold bind at 1. unfold new_DockerNode at 1.
  rewrite Hlogin. simpl. unfold bind at 1, ret at 1.
  unfold bind at 1. by rewrite Hsubs.
Qed.

Lemma getSubscriptions_rejects_with_a_session_witness :
  let sub (n : string) := {| displayName := Some n; subscriptionId := Some n;
                             tenantId := Some "t" |} in
  let page := {| items := [sub "prod"]; nextLink := None |} in
  let other := {| environment := "AzureCloud"; userId := "ops@example.org";
                  credentials := "ops" |} in
  let B := with_azure (Fulfilled true) [devSession; other]
             (λ s, if String.eqb (credentials s) "dev" then Fulfilled page
                   else Failed (Failure "expired"))
             (λ _ _, Failed (Failure "no such page")) offline in
  getSubscriptions B 1 (constructor false)
  = (Rejected (Failure "expired"), constructor false).
Proof.
  intros sub page other B.
  apply (getSubscriptions_rejects_with_a_session B 1
           (categoryNode "Registries" "registriesLabel") (λ _, [page])
           [devSession] [] other (Failure "expired") (constructor false)).
  - reflexivity.
  - repeat constructor. exists page. split; [reflexivity|]. split.
    + apply chain_last. reflexivity.
    + simpl. lia.
  - left. reflexivity.
  - reflexivity.
  - reflexivity.
Defined.

(** X9: without an Azure login the registries expansion returns one node,
    the Docker Hub node, and lists no subscription, whatever sessions the
    account has. *)
Theorem registries_without_login (B : Backend) (fuel : nat)
    (element : DockerNode) (w : World) :
  contextValue element = "registriesLabel" →
  waitForLogin B = Fulfilled false →
  getChildren B fuel (Some element) w
  = (Resolved (Some [length (heap w)]),
     set_heap (heap w ++ [categoryNode "Docker Hub" "dockerHubRegistry"]) w).
Proof.
  intros Htag Hlogin. unfold getChildren, getDockerNodes. rewrite Htag. simpl.
  unfold bind at 1. unfold expandRegistries.
  unfold bind at 1. unfold new_DockerNode at 1.
  by rewrite Hlogin.
Qed.

Lemma registries_without_login_witness :
  let B := with_azure (Fulfilled false) [devSession]
             (λ _, Failed (Failure "not logged in"))
             (λ _ _, Failed (Failure "not logged in")) offline in
  (getChildren B 0 (Some (categoryNode "Registries" "registriesLabel"))
               (constructor false)).1 = Resolved (Some [0]).
Proof.
  intros B.
  by rewrite (registries_without_login B 0
                (categoryNode "Registries" "registriesLabel") (constructor false)).
Defined.

(** ** Docker Hub *)

Lemma truthy_Some token : token ≠ "" → truthy (Some token) = true.
Proof. intros Hne. simpl. by apply negb_true_iff, String.eqb_neq. Qed.

Lemma leaves_hubCredentials_hubRepositories B :
  leaves hubCredentials (hubRepositories B).
Proof. unfold hubRepositories. leaves_all. Qed.

Lemma hubRepositories_lists B (user : HubUser) (repos : list HubRepo)
    (fetched : HubRepo → HubRepo) w :
  hub_loggedInUser B = Fulfilled (Some user) →
  hub_repositories B (username user) = Fulfilled repos →
  Forall (λ r, hub_repository B (namespace r) (name r) = Fulfilled (fetched r)) repos →
  hubRepositories B w
  = (Resolved (seq (length (heap w)) (length repos)),
     set_heap (heap w ++ map (λ r, hubObject (fetched r)) repos) w).
Proof.
  intros Huser Hrepos Hfetched. unfold hubRepositories.
  rewrite Huser. simpl. unfold bind at 1, ret at 1. rewrite Hrepos. simpl.
  unfold bind at 1, ret at 1.
  apply mapM_allocates. eapply Forall_impl; [exact Hfetched|]. simpl.
  intros r Hr w'. rewrite Hr. simpl.
  unfold bind, new_DockerNode, assign, modify, ret. simpl.
  by rewrite alter_last.
Qed.

(** The token the Docker Hub branch goes on with, and the world after the
    calls that obtain and record it. *)
Lemma expandDockerHub_with_stored_token B w token :
  _keytar (this w) = true → keychain w = Some token → token ≠ "" →
  expandDockerHub B w = hubRepositories B (set_loginToken (Some token) w).
Proof.
  intros Hkeytar Hstored Hne. unfold expandDockerHub.
  unfold bind at 1, get at 1. rewrite Hkeytar.
  unfold bind at 1, getPassword, bind at 1, get at 1, ret at 1.
  rewrite Hstored, (truthy_Some _ Hne). simpl.
  unfold bind at 1, setLoginToken, modify. done.
Qed.

Lemma expandDockerHub_with_login B w token :
  _keytar (this w) = false ∨ truthy (keychain w) = false →
  dockerHubLogin B = Fulfilled (Some token) → token ≠ "" →
  expandDockerHub B w
  = hubRepositories B
      (if _keytar (this w)
       then set_keychain (Some token) (set_loginToken (Some token) w)
       else set_loginToken (Some token) w).
Proof.
  intros Hstore Hlogin Hne. unfold expandDockerHub.
  unfold bind at 1, get at 1. unfold bind at 1.
  assert (Hnone : (if _keytar (this w) then getPassword else ret None) w
                  = (Resolved (if _keytar (this w) then keychain w else None), w))
    by (by destruct (_keytar (this w))).
  rewrite Hnone.
  assert (Hfalsy : truthy (if _keytar (this w) then keychain w else None) = false).
  { destruct Hstore as [-> | Hkey]; [done|]. by destruct (_keytar (this w)). }
  rewrite Hfalsy. simpl. rewrite Hlogin. simpl.
  unfold bind at 1, ret at 1. rewrite (truthy_Some _ Hne).
  unfold bind at 1, setLoginToken, modify.
  unfold bind at 1. by destruct (_keytar (this w)).
Qed.

(** X10: with a token in the credential store the Docker Hub expansion does
    not ask for a login: whatever the interactive login would yield, the
    expansion is the same; it hands the stored token to the client and
    leaves the store as it is. *)
Theorem stored_token_skips_the_login (B : Backend) (fuel : nat)
    (element : DockerNode) (w : World) (token : string)
    (login : Promise (option string)) :
  contextValue element = "dockerHubRegistry" →
  _keytar (this w) = true → keychain w = Some token → token ≠ "" →
  getChildren (with_login login B) fuel (Some element) w
  = getChildren B fuel (Some element) w
  ∧ loginToken (getChildren B fuel (Some element) w).2 = Some token
  ∧ keychain (getChildren B fuel (Some element) w).2 = Some token.
Proof.
  intros Htag Hkeytar Hstored Hne.
  unfold getChildren, getDockerNodes. rewrite Htag. simpl.
  unfold bind.
  rewrite !(expandDockerHub_with_stored_token _ _ _ Hkeytar Hstored Hne).
  change (hubRepositories (with_login login B)) with (hubRepositories B).
  split; [done|].
  pose proof (leaves_hubCredentials_hubRepositories B
                (set_loginToken (Some token) w)) as Hcred.
  unfold hubCredentials in Hcred. simpl in Hcred. injection Hcred as Hk Hl.
  destruct (hubRepositories B (set_loginToken (Some token) w)) as [[locs|e|] w'];
    simpl in *; by rewrite Hk, Hl.
Qed.

Lemma stored_token_skips_the_login_witness :
  let w := set_keychain (Some "hub-token") (constructor true) in
  getChildren (with_login (Failed (Failure "cancelled")) offline) 0
              (Some (categoryNode "Docker Hub" "dockerHubRegistry")) w
  = getChildren offline 0 (Some (categoryNode "Docker Hub" "dockerHubRegistry")) w.
Proof.
  intros w.
  apply (stored_token_skips_the_login offline 0
           (categoryNode "Docker Hub" "dockerHubRegistry") w "hub-token");
    (reflexivity || discriminate).
Defined.

(** X11: when no token is stored and the login yields one, the Docker Hub
    expansion hands it to the client and, when the credential store is
    there, stores it, before it lists anything: the token is recorded even
    when the listing fails. *)
Theorem login_token_is_recorded (B : Backend) (fuel : nat)
    (element : DockerNode) (w : World) (token : string) :
  contextValue element = "dockerHubRegistry" →
  _keytar (this w) = false ∨ truthy (keychain w) = false →
  dockerHubLogin B = Fulfilled (Some token) → token ≠ "" →
  let w' := (getChildren B fuel (Some element) w).2 in
  loginToken w' = Some token
  ∧ keychain w' = if _keytar (this w) then Some token else keychain w.
Proof.
  intros Htag Hstore Hlogin Hne.
  unfold getChildren, getDockerNodes. rewrite Htag. simpl.
  unfold bind. rewrite (expandDockerHub_with_login _ _ _ Hstore Hlogin Hne).
  match goal with
  | |- context [hubRepositories B ?w0] =>
      pose proof (leaves_hubCredentials_hubRepositories B w0) as Hcred;
      destruct (hubRepositories B w0) as [[locs|e|] w']
  end;
    unfold hubCredentials in Hcred; simpl in *; injection Hcred as Hk Hl;
    rewrite Hk, Hl; by destruct (_keytar (this w)).
Qed.

Lemma login_token_is_recorded_witness :
  let B := with_login (Fulfilled (Some "hub-token")) offline in
  let r := getChildren B 0 (Some (categoryNode "Docker Hub" "dockerHubRegistry"))
                       (constructor true) in
  loginToken r.2 = Some "hub-token" ∧ keychain r.2 = Some "hub-token".
Proof.
  intros B r.
  apply (login_token_is_recorded B 0
           (categoryNode "Docker Hub" "dockerHubRegistry") (constructor true)
           "hub-token"); [reflexivity | by right | reflexivity | discriminate].
Defined.

(** X12: with a token at hand - stored, or from the login - the Docker Hub
    expansion asks for the user, lists the repositories of that user's name
    and fetches each of them again; it returns one node per repository, in
    the order of the list, labelled [namespace/name] of the repository as
    fetched and carrying it. *)
Theorem dockerHub_one_node_per_repository (B : Backend) (fuel : nat)
    (element : DockerNode) (w : World) (token : string)
    (user : HubUser) (repos : list HubRepo) (fetched : HubRepo → HubRepo) :
  contextValue element = "dockerHubRegistry" →
  (_keytar (this w) = true ∧ keychain w = Some token
   ∨ (_keytar (this w) = false ∨ truthy (keychain w) = false)
     ∧ dockerHubLogin B = Fulfilled (Some token)) →
  token ≠ "" →
  hub_loggedInUser B = Fulfilled (Some user) →
  hub_repositories B (username user) = Fulfilled repos →
  Forall (λ r, hub_repository B (namespace r) (name r) = Fulfilled (fetched r)) repos →
  let r := getChildren B fuel (Some element) w in
  r.1 = Resolved (Some (seq (length (heap w)) (length repos)))
  ∧ heap r.2 = heap w ++ map (λ r, hubObject (fetched r)) repos.
Proof.
  intros Htag Htoken Hne Huser Hrepos Hfetched.
  unfold getChildren, getDockerNodes. rewrite Htag. simpl. unfold bind.
  destruct Htoken as [[Hkeytar Hstored] | [Hstore Hlogin]].
  - rewrite (expandDockerHub_with_stored_token _ _ _ Hkeytar Hstored Hne).
    by rewrite (hubRepositories_lists _ _ _ _ _ Huser Hrepos Hfetched).
  - rewrite (expandDockerHub_with_login _ _ _ Hstore Hlogin Hne).
    rewrite (hubRepositories_lists _ _ _ _ _ Huser Hrepos Hfetched).
    by destruct (_keytar (this w)).
Qed.

Lemma dockerHub_one_node_per_repository_witness :
  let web := {| namespace := Some "acme"; name := Some "web" |} in
  let B := with_hub (Fulfilled (Some {| username := Some "acme" |}))
                    (λ _, Fulfilled [web]) (λ _ _, Fulfilled web)
                    (λ _ _, Fulfilled [])
                    (with_login (Fulfilled (Some "hub-token")) offline) in
  let r := getChildren B 0 (Some (categoryNode "Docker Hub" "dockerHubRegistry"))
                       (constructor false) in
  r.1 = Resolved (Some [0]) ∧ label <$> heap r.2 !! 0 = Some "acme/web".
Proof.
  intros web B r.
  destruct (dockerHub_one_node_per_repository B 0
              (categoryNode "Docker Hub" "dockerHubRegistry") (constructor false)
              "hub-token" {| username := Some "acme" |} [web] (λ _, web))
    as [Hres Hheap].
  - reflexivity.
  - right. split; [by left | reflexivity].
  - discriminate.
  - reflexivity.
  - reflexivity.
  - repeat constructor.
  - fold r in Hres, Hheap. split; [exact Hres|]. by rewrite Hheap.
Defined.

(** X13: the expansion of a Docker Hub repository node asks for the tags of
    the namespace and name its payload holds (both undefined when the
    payload is not a repository) and returns one leaf node per tag, in
    order, labelled [name:tag]. *)
Theorem hub_image_one_node_per_tag (B : Backend) (fuel : nat)
    (element : DockerNode) (tags : list HubTag) (w : World) :
  contextValue element = "dockerHubRegistryImage" →
  hub_tags B (repo_namespace (repository element)) (repo_name (repository element))
  = Fulfilled tags →
  getChildren B fuel (Some element) w
  = (Resolved (Some (seq (length (heap w)) (length tags))),
     set_heap (heap w ++ map (hubTagObject element) tags) w).
Proof.
  intros Htag Htags. unfold getChildren, getDockerNodes. rewrite Htag. simpl.
  unfold bind at 1. unfold expandHubImage. rewrite Htags. simpl.
  unfold bind at 1, ret at 1.
  rewrite (mapM_allocates _ (hubTagObject element)); [done|].
  apply Forall_forall. by intros tag _ w'.
Qed.

Lemma hub_image_one_node_per_tag_witness :
  let web := {| namespace := Some "acme"; name := Some "web" |} in
  let B := with_hub (Failed (Failure "unused")) (λ _, Failed (Failure "unused"))
                    (λ _ _, Failed (Failure "unused"))
                    (λ ns n, if bool_decide (ns = Some "acme" ∧ n = Some "web")
                             then Fulfilled [ {| tag_name := Some "1.0" |};
                                              {| tag_name := Some "latest" |} ]
                             else Failed (Failure "not found")) offline in
  label <$> heap (getChildren B 0 (Some (hubObject web)) (constructor false)).2
  = ["web:1.0"; "web:latest"].
Proof.
  intros web B.
  by rewrite (hub_image_one_node_per_tag B 0 (hubObject web)
                [ {| tag_name := Some "1.0" |}; {| tag_name := Some "latest" |} ]
                (constructor false) eq_refl eq_refl).
Defined.

(** ** Azure: subscriptions, registries, repositories *)

(** X14: the expansion of a subscription node lists the registries of the
    subscription with the credentials of its session, and returns one node
    per registry, in order, labelled with the login server and carrying the
    subscription item of the expanded node; a node without a subscription
    item makes it fail with a type error before any call. *)
Theorem subscription_one_node_per_registry (B : Backend) (fuel : nat)
    (element : DockerNode) (w : World) :
  contextValue element = "azureSubscription" →
  (node_subscription element = None →
   getChildren B fuel (Some element) w
   = (Rejected (TypeError "element.subscription.session"), w))
  ∧ (∀ sub registries,
       node_subscription element = Some sub →
       registries_list B (session sub) (subscriptionId (subscription sub))
       = Fulfilled registries →
       getChildren B fuel (Some element) w
       = (Resolved (Some (seq (length (heap w)) (length registries))),
          set_heap (heap w ++ map (registryObject element) registries) w)).
Proof.
  intros Htag. unfold getChildren, getDockerNodes. rewrite Htag. simpl.
  unfold expandSubscription. split.
  - by intros ->.
  - intros sub registries Hsub Hlist. rewrite Hsub, Hlist. simpl.
    unfold bind at 1. unfold bind at 1, ret at 1.
    rewrite (mapM_allocates _ (registryObject element)); [done|].
    apply Forall_forall. intros reg _ w'.
    unfold bind, new_DockerNode, assign, modify, ret, registryObject. simpl.
    by rewrite alter_last, Hsub.
Qed.

Lemma subscription_one_node_per_registry_witness :
  let B := with_registries
             (λ s id, if bool_decide (id = Some "sub-1")
                      then Fulfilled [ {| loginServer := "dev.azurecr.io" |} ]
                      else Failed (Failure "no such subscription")) offline in
  let element := subscriptionObject devSubscription in
  heap (getChildren B 0 (Some element) (constructor false)).2 = [registryNode]
  ∧ getChildren B 0 (Some (categoryNode "Development" "azureSubscription"))
                (constructor false)
    = (Rejected (TypeError "element.subscription.session"), constructor false).
Proof.
  intros B element. split.
  - destruct (subscription_one_node_per_registry B 0 element (constructor false)
                eq_refl) as [_ Hlist].
    by rewrite (Hlist devSubscription [ {| loginServer := "dev.azurecr.io" |} ]
                  eq_refl eq_refl).
  - destruct (subscription_one_node_per_registry B 0
                (categoryNode "Development" "azureSubscription")
                (constructor false) eq_refl) as [Hnone _].
    by apply Hnone.
Defined.

Lemma request_answered {A} B r (callback : option Error → option Body → M A)
    unassigned token body w :
  http B r = Fulfilled body → bearer r = Some (Some token) →
  request B r callback unassigned w
  = settle (callback None (Some body)) unassigned
           (set_requests (requests w ++ [r]) w).
Proof.
  intros Hreply Hbearer. unfold request, bind, modify.
  by rewrite Hbearer, Hreply.
Qed.

(** X15: the expansion of a registry node, with the two tokens of the
    session at hand, sends three exchanges to the registry named by the
    node's label, in this order: the exchange of the session's tokens for a
    refresh token, the exchange of what the first reply left (the refresh
    token, or undefined) for an access token of scope [registry:catalog:*],
    and, when the second reply holds an access token, the catalog request
    with that token as bearer.  A non-empty catalog with the repositories
    [repos] gives one node per repository, in order, carrying the
    registry's name, the subscription item and the two tokens; an empty
    catalog body gives no node and the warning [no repos]. *)
Theorem registry_exchange (B : Backend) (fuel : nat) (element : DockerNode)
    (sub : SubscriptionItem) (tokens : TokenResult)
    (body1 body2 body3 : Body) (accessARC : JsonField) (w : World) :
  contextValue element = "azureRegistry" →
  node_subscription element = Some sub →
  context_acquireToken B (session sub) = inr tokens →
  truthy (accessToken tokens) = true → truthy (refreshToken tokens) = true →
  let refreshARC := leftBy "refresh_token" body1 in
  let r1 := exchangeRequest (label element) (tenantId (subscription sub)) tokens in
  let r2 := tokenRequest (label element) "registry:catalog:*" refreshARC in
  let r3 := listingRequest ("https://" +:+ label element +:+ "/v2/_catalog")
                           (Some accessARC) in
  http B r1 = Fulfilled body1 →
  http B r2 = Fulfilled body2 →
  leftBy "access_token" body2 = Some accessARC →
  http B r3 = Fulfilled body3 →
  let sent := set_requests (requests w ++ [r1; r2; r3]) w in
  (∀ doc repos,
     nonEmpty body3 = true → parsed body3 = Some doc →
     member "repositories" doc = Some (JStrings repos) →
     getChildren B fuel (Some element) w
     = (Resolved (Some (seq (length (heap w)) (length repos))),
        set_heap (heap w ++ map (azureRepositoryObject element refreshARC
                                                       (Some accessARC)) repos)
                 sent))
  ∧ (nonEmpty body3 = false →
     getChildren B fuel (Some element) w
     = (Resolved (Some []), set_warnings (warnings w ++ ["no repos"]) sent)).
Proof.
  intros Htag Hsub Htokens Haccess Hrefresh refreshARC r1 r2 r3 Hr1 Hr2 Hleft
    Hr3 sent.
  subst refreshARC r1 r2 r3 sent.
  unfold exchangeRequest, tokenRequest, listingRequest in *.
  remember (getChildren B fuel (Some element) w) as result eqn:Hrun.
  unfold getChildren, getDockerNodes in Hrun. rewrite Htag in Hrun.
  simpl in Hrun. unfold expandRegistry in Hrun. rewrite Hsub in Hrun.
  unfold bind at 1, acquireToken in Hrun.
  rewrite Htokens, truthy_tokens in Hrun. unfold ret at 1 in Hrun.
  rewrite Haccess, Hrefresh in Hrun. simpl in Hrun.
  unfold bind at 1 in Hrun.
  rewrite (request_token _ _ _ _ _ Hr1 eq_refl) in Hrun.
  unfold bind at 1 in Hrun.
  rewrite (request_token _ _ _ _ _ Hr2 eq_refl), Hleft in Hrun.
  unfold bind at 1 in Hrun.
  rewrite (request_answered _ _ _ _ _ _ _ Hr3 eq_refl) in Hrun.
  unfold settle, bind at 1, received, ret at 1 in Hrun.
  simpl in Hrun. rewrite <- !(assoc_L (++)) in Hrun. simpl in Hrun.
  split.
  - intros doc repos Hnon Hdoc Hrepos. rewrite Hnon in Hrun.
    unfold bind at 1, JSON_parse in Hrun. rewrite Hdoc in Hrun.
    unfold ret at 1 in Hrun.
    unfold bind at 1 in Hrun. rewrite Hrepos in Hrun.
    unfold entries, ret at 1 in Hrun.
    rewrite (mapM_allocates _
               (azureRepositoryObject element (leftBy "refresh_token" body1)
                                      (Some accessARC)))
      in Hrun; [by rewrite Hrun|].
    apply Forall_forall. intros repo _ w'.
    unfold bind, new_DockerNode, assign, modify, ret, azureRepositoryObject.
    simpl. by rewrite !alter_last, Hsub.
  - intros Hempty. by rewrite Hempty in Hrun.
Qed.

Lemma registry_exchange_witness :
  let B := with_http registryReplies (with_acquireToken devTokens offline) in
  let r := getChildren B 0 (Some registryNode) (constructor false) in
  r.1 = Resolved (Some [0; 1])
  ∧ label <$> heap r.2 = ["app"; "db"]
  ∧ bearer <$> requests r.2 = [None; None; Some (Some (JString "acr-access"))].
Proof.
  intros B r.
  destruct (registry_exchange B 0 registryNode devSubscription
              {| accessToken := Some "aad-access"; refreshToken := Some "aad-refresh" |}
              {| text := "{" +:+ quoted "refresh_token" +:+ ":" +:+
                         quoted "acr-refresh" +:+ "}";
                 parsed := Some [("refresh_token", JString "acr-refresh")] |}
              {| text := "{" +:+ quoted "access_token" +:+ ":" +:+
                         quoted "acr-access" +:+ "}";
                 parsed := Some [("access_token", JString "acr-access")] |}
              {| text := "{" +:+ quoted "repositories" +:+ ":" +:+
                         ("[" +:+ quoted "app" +:+ "," +:+ quoted "db" +:+ "]") +:+ "}";
                 parsed := Some [("repositories", JStrings ["app"; "db"])] |}
              (JString "acr-access") (constructor false))
    as [Hnodes _]; try reflexivity.
  subst r.
  rewrite (Hnodes [("repositories", JStrings ["app"; "db"])] ["app"; "db"]
             eq_refl eq_refl eq_refl).
  repeat split; reflexivity.
Defined.

(** X16: the expansion of a repository node does the same exchange with the
    registry its payload names, for the scope [repository:<label>:pull], and
    then, when the second reply holds an access token, asks for the tags of
    the repository with that token as bearer.  A non-empty reply with the
    tags [tags] gives one leaf node per tag, in order, labelled
    [<label>:<tag>] and carrying the registry's name, the subscription item,
    the new access token and the refresh token the expanded node carried; an
    empty reply gives no node, and no warning. *)
Theorem repository_exchange (B : Backend) (fuel : nat) (element : DockerNode)
    (sub : SubscriptionItem) (tokens : TokenResult)
    (body1 body2 body3 : Body) (accessARC : JsonField) (w : World) :
  contextValue element = "azureRepository" →
  node_subscription element = Some sub →
  context_acquireToken B (session sub) = inr tokens →
  truthy (accessToken tokens) = true → truthy (refreshToken tokens) = true →
  let server := repo_string (repository element) in
  let r1 := exchangeRequest server (tenantId (subscription sub)) tokens in
  let r2 := tokenRequest server ("repository:" +:+ label element +:+ ":pull")
                         (leftBy "refresh_token" body1) in
  let r3 := listingRequest ("https://" +:+ server +:+ "/v2/" +:+ label element
                            +:+ "/tags/list") (Some accessARC) in
  http B r1 = Fulfilled body1 →
  http B r2 = Fulfilled body2 →
  leftBy "access_token" body2 = Some accessARC →
  http B r3 = Fulfilled body3 →
  let sent := set_requests (requests w ++ [r1; r2; r3]) w in
  (∀ doc tags,
     nonEmpty body3 = true → parsed body3 = Some doc →
     member "tags" doc = Some (JStrings tags) →
     getChildren B fuel (Some element) w
     = (Resolved (Some (seq (length (heap w)) (length tags))),
        set_heap (heap w ++ map (azureTagObject element (Some accessARC)) tags)
                 sent))
  ∧ (nonEmpty body3 = false →
     getChildren B fuel (Some element) w = (Resolved (Some []), sent)).
Proof.
  intros Htag Hsub Htokens Haccess Hrefresh server r1 r2 r3 Hr1 Hr2 Hleft Hr3 sent.
  subst server r1 r2 r3 sent.
  unfold exchangeRequest, tokenRequest, listingRequest in *.
  remember (getChildren B fuel (Some element) w) as result eqn:Hrun.
  unfold getChildren, getDockerNodes in Hrun. rewrite Htag in Hrun.
  simpl in Hrun. unfold expandRepository in Hrun. rewrite Hsub in Hrun.
  unfold bind at 1, acquireToken in Hrun.
  rewrite Htokens, truthy_tokens in Hrun. unfold ret at 1 in Hrun.
  rewrite Haccess, Hrefresh in Hrun. simpl in Hrun.
  unfold bind at 1 in Hrun.
  rewrite (request_token _ _ _ _ _ Hr1 eq_refl) in Hrun.
  unfold bind at 1 in Hrun.
  rewrite (request_token _ _ _ _ _ Hr2 eq_refl), Hleft in Hrun.
  unfold bind at 1 in Hrun.
  rewrite (request_answered _ _ _ _ _ _ _ Hr3 eq_refl) in Hrun.
  unfold settle, bind at 1, received, ret at 1 in Hrun.
  simpl in Hrun. rewrite <- !(assoc_L (++)) in Hrun. simpl in Hrun.
  split.
  - intros doc tags Hnon Hdoc Htags. rewrite Hnon in Hrun.
    unfold bind at 1, JSON_parse in Hrun. rewrite Hdoc in Hrun.
    unfold ret at 1 in Hrun.
    unfold bind at 1 in Hrun. rewrite Htags in Hrun.
    unfold entries, ret at 1 in Hrun.
    rewrite (mapM_allocates _ (azureTagObject element (Some accessARC)))
      in Hrun; [by rewrite Hrun|].
    apply Forall_forall. intros tag _ w'.
    unfold bind, new_DockerNode, assign, modify, ret, azureTagObject.
    simpl. by rewrite !alter_last, Hsub.
  - intros Hempty. by rewrite Hempty in Hrun.
Qed.

Lemma repository_exchange_witness :
  let B := with_http registryReplies (with_acquireToken devTokens offline) in
  let element := azureRepositoryObject registryNode (Some (JString "acr-refresh"))
                                       (Some (JString "acr-access")) "app" in
  let r := getChildren B 0 (Some element) (constructor false) in
  r.1 = Resolved (Some [0])
  ∧ (λ n, (label n, repository n, refreshTokenARC n)) <$> heap r.2
    = [("app:latest", RepoServer "dev.azurecr.io", Some (JString "acr-refresh"))]
  ∧ (λ q, (url q, bearer q)) <$> requests r.2
    = [("https://dev.azurecr.io/oauth2/exchange", None);
       ("https://dev.azurecr.io/oauth2/token", None);
       ("https://dev.azurecr.io/v2/app/tags/list",
        Some (Some (JString "acr-access")))].
Proof.
  intros B element r.
  destruct (repository_exchange B 0 element devSubscription
              {| accessToken := Some "aad-access"; refreshToken := Some "aad-refresh" |}
              {| text := "{" +:+ quoted "refresh_token" +:+ ":" +:+
                         quoted "acr-refresh" +:+ "}";
                 parsed := Some [("refresh_token", JString "acr-refresh")] |}
              {| text := "{" +:+ quoted "access_token" +:+ ":" +:+
                         quoted "acr-access" +:+ "}";
                 parsed := Some [("access_token", JString "acr-access")] |}
              {| text := "{" +:+ quoted "tags" +:+ ":" +:+
                         ("[" +:+ quoted "latest" +:+ "]") +:+ "}";
                 parsed := Some [("tags", JStrings ["latest"])] |}
              (JString "acr-access") (constructor false))
    as [Hnodes _]; try reflexivity.
  subst r.
  rewrite (Hnodes [("tags", JStrings ["latest"])] ["latest"]
             eq_refl eq_refl eq_refl).
  repeat split; reflexivity.
Defined.

(** X17: when the session yields no access token or no refresh token (a
    missing or an empty one), the expansion of a registry or repository node
    sends nothing to the registry and allocates nothing: it ends without a
    value and leaves the world as it was. *)
Theorem no_exchange_without_session_tokens (B : Backend) (fuel : nat)
    (element : DockerNode) (sub : SubscriptionItem) (tokens : TokenResult)
    (w : World) :
  contextValue element = "azureRegistry"
  ∨ contextValue element = "azureRepository" →
  node_subscription element = Some sub →
  context_acquireToken B (session sub) = inr tokens →
  truthy (accessToken tokens) = false ∨ truthy (refreshToken tokens) = false →
  getChildren B fuel (Some element) w = (Resolved None, w).
Proof.
  intros Htag Hsub Htokens Hfalsy.
  assert (Hboth : truthy (accessToken tokens) && truthy (refreshToken tokens) = false).
  { destruct Hfalsy as [-> | ->]; [done | apply andb_false_r]. }
  unfold getChildren, getDockerNodes.
  destruct Htag as [-> | ->]; simpl.
  - unfold expandRegistry. rewrite Hsub. unfold bind at 1, acquireToken.
    rewrite Htokens. unfold ret at 1. simpl. by rewrite Hboth.
  - unfold expandRepository. rewrite Hsub. unfold bind at 1, acquireToken.
    rewrite Htokens. unfold ret at 1. simpl. by rewrite Hboth.
Qed.

Lemma no_exchange_without_session_tokens_witness :
  let B := with_http registryReplies
             (with_acquireToken
                (λ _, inr {| accessToken := Some "aad-access";
                             refreshToken := Some "" |}) offline) in
  getChildren B 0 (Some registryNode) (constructor false)
  = (Resolved None, constructor false).
Proof.
  intros B.
  apply (no_exchange_without_session_tokens B 0 registryNode devSubscription
           {| accessToken := Some "aad-access"; refreshToken := Some "" |});
    [by left | reflexivity | reflexivity | by right].
Defined.

(** ** Tags and payloads *)

Lemma wellTagged_payload n :
  wellTagged n = true →
  (contextValue n = "image" → is_Some (imageDesc n))
  ∧ (contextValue n = "stoppedContainer" ∨ contextValue n = "runningContainer" →
     is_Some (containerDesc n))
  ∧ (contextValue n = "azureSubscription" ∨ contextValue n = "azureRegistry"
     ∨ contextValue n = "azureRepository" ∨ contextValue n = "azureRepositoryTag" →
     is_Some (node_subscription n))
  ∧ (contextValue n = "azureRepository" → ∃ server, repository n = RepoServer server)
  ∧ (contextValue n = "dockerHubRegistryImage" → ∃ r, repository n = RepoHub r).
Proof.
  unfold wellTagged. intros Hn.
  repeat split;
    repeat match goal with
           | |- _ ∨ _ → _ => intros [Htag | Htag]; revert Htag
           end;
    intros Htag; rewrite Htag in Hn; simpl in Hn;
    try (apply andb_true_iff in Hn as [Hn Hrepo]);
    try (by apply bool_decide_eq_true in Hn);
    by (destruct (repository n); try done; eexists).
Qed.

Lemma leaves_heap_setAutoRefresh B : leaves heap (setAutoRefresh B).
Proof.
  unfold setAutoRefresh, clearTimeout, setTimeout.
  destruct (decide _); [|apply leaves_ret].
  apply leaves_bind; [apply leaves_get|]. intros w0.
  apply leaves_bind; [intros w1; by destruct (_debounceTimer (this w0))|].
  intros _. apply leaves_bind; [done|]. intros t. by apply leaves_modify.
Qed.

Lemma leaves_heap_expire id : leaves heap (expire id).
Proof.
  unfold expire, timeoutCallback, refreshImages, refreshContainers. leaves_all.
Qed.

Lemma call_allocates B c w :
  ∃ new, Forall tagged new ∧ heap (call B c w) = heap w ++ new.
Proof.
  assert (Hsame : heap (call B c w) = heap w →
                  ∃ new, Forall tagged new ∧ heap (call B c w) = heap w ++ new).
  { intros Heq. exists []. split; [done|]. by rewrite app_nil_r. }
  destruct c as [| | | | | id | fuel element].
  - by apply Hsame.
  - by apply Hsame.
  - by apply Hsame.
  - by apply Hsame.
  - apply Hsame, leaves_heap_setAutoRefresh.
  - apply Hsame, leaves_heap_expire.
  - destruct (allocatesResult_getDockerNodes B fuel element w)
      as (new & Htagged & Hheap & _).
    exists new. split; [exact Htagged | exact Hheap].
Qed.

Lemma run_heap_tagged calls w :
  Forall tagged (heap w) → Forall tagged (heap (run calls w)).
Proof.
  revert w. induction calls as [|[B c] calls IH]; intros w Hw; [done|].
  change (run ((B, c) :: calls) w) with (run calls (call B c w)).
  apply IH. destruct (call_allocates B c w) as (new & Hnew & ->).
  by apply Forall_app.
Qed.

(** X18: the tag of a node and its payload agree, on every node the provider
    ever allocates.  After any sequence of calls on a new provider -
    expansions of any nodes with any answers of the collaborators, failed
    ones included - every [image] node in the heap carries an image
    descriptor, every container node a container descriptor, every Azure
    subscription, registry, repository and tag node a subscription item,
    every Azure repository node the name of its registry, and every Docker
    Hub repository node its repository: what the branch of the tag reads is
    there. *)
Theorem nodes_carry_the_payload_of_their_tag (keytar_found : bool)
    (calls : list (Backend * Call)) (n : DockerNode) :
  n ∈ heap (run calls (constructor keytar_found)) →
  (contextValue n = "image" → is_Some (imageDesc n))
  ∧ (contextValue n = "stoppedContainer" ∨ contextValue n = "runningContainer" →
     is_Some (containerDesc n))
  ∧ (contextValue n = "azureSubscription" ∨ contextValue n = "azureRegistry"
     ∨ contextValue n = "azureRepository" ∨ contextValue n = "azureRepositoryTag" →
     is_Some (node_subscription n))
  ∧ (contextValue n = "azureRepository" → ∃ server, repository n = RepoServer server)
  ∧ (contextValue n = "dockerHubRegistryImage" → ∃ r, repository n = RepoHub r).
Proof.
  intros Hn. apply wellTagged_payload.
  assert (Hheap : Forall tagged (heap (run calls (constructor keytar_found))))
    by (by apply run_heap_tagged).
  by apply (proj1 (Forall_forall _ _) Hheap).
Qed.

Lemma nodes_carry_the_payload_of_their_tag_witness :
  let B := with_http registryReplies (with_acquireToken devTokens offline) in
  let calls := [(B, CallGetChildren 0 None);
                (B, CallGetChildren 0 (Some registryNode))] in
  let repo := azureRepositoryObject registryNode (Some (JString "acr-refresh"))
                                    (Some (JString "acr-access")) "app" in
  is_Some (node_subscription repo) ∧ ∃ server, repository repo = RepoServer server.
Proof.
  intros B calls repo.
  destruct (nodes_carry_the_payload_of_their_tag false calls repo)
    as (_ & _ & Hsub & Hserver & _).
  - assert (Hheap : heap (run calls (constructor false)) !! 3 = Some repo)
      by reflexivity.
    by apply list_elem_of_lookup_2 in Hheap.
  - split; [apply Hsub; right; right; by left | by apply Hserver].
Defined.
